(** * workspace-updater: a verification development for [src/index.ts]

    The program audits the [catalog] of a [pnpm-workspace.yaml] against
    the npm registry and, on request, rewrites the file.  This file embeds
    the pipeline of [checkDependencies] (from the parsed YAML document
    onwards) and proves properties of it.

    Conventions of the embedding:
    - JavaScript values are a small sum type; objects live in a heap
      ([gmap loc object]) and are referred to by location, because
      [yaml.load] returns one shared object for a YAML anchor and all of
      its aliases and the updater assigns into the catalog in place;
    - an object is the association list of its own enumerable properties in
      the order [Object.entries] enumerates them;
    - a JavaScript exception is the [Throw] case of [result];
    - [console.log] / [console.warn] / [console.error] append a line to the
      console;
    - the lookups are concurrent: by convention they complete in catalog
      order, each after every callback has run up to its first [await]. *)

From Stdlib Require Import String Ascii List ZArith NArith Bool Lia.
From Stdlib Require Import DecimalString.
From stdpp Require Import gmap strings.
Import ListNotations.
Local Open Scope string_scope.
Local Open Scope list_scope.

(** ** JavaScript values, objects and the heap *)

Definition loc := nat.

Inductive jsval : Type :=
| JUndefined
| JNull
| JBool (b : bool)
| JNum (n : Z)
| JStr (s : string)
| JRef (l : loc).

(** An object: own enumerable properties, in enumeration order. *)
Definition object : Type := list (string * jsval).

Abbreviation heap := (gmap loc object).

Inductive exn : Type :=
| TypeError (msg : string).

Inductive result (A : Type) : Type :=
| Ok (a : A)
| Throw (e : exn).
Arguments Ok {A} a.
Arguments Throw {A} e.

Definition bind {A B : Type} (r : result A) (k : A -> result B) : result B :=
  match r with
  | Ok a => k a
  | Throw e => Throw e
  end.

Notation "'let*' x := r 'in' k" := (bind r (fun x => k))
  (at level 10, x name, r at level 100, k at level 200).

(** [ToBoolean] of the language. *)
Definition truthy (v : jsval) : bool :=
  match v with
  | JUndefined | JNull => false
  | JBool b => b
  | JNum n => negb (n =? 0)%Z
  | JStr s => negb (String.eqb s "")
  | JRef _ => true
  end.

(** [o !== null] *)
Definition non_null {A : Type} (o : option A) : bool :=
  match o with
  | Some _ => true
  | None => false
  end.

(** Truthiness of a [string | null]. *)
Definition truthy_str (o : option string) : bool :=
  match o with
  | Some s => negb (String.eqb s "")
  | None => false
  end.

Fixpoint assoc_get (k : string) (o : object) : option jsval :=
  match o with
  | [] => None
  | (k', v) :: o' => if String.eqb k' k then Some v else assoc_get k o'
  end.

(** Assignment [o[k] = v]: an existing property keeps its position, a new
    one is added at the end. *)
Fixpoint assoc_set (k : string) (v : jsval) (o : object) : object :=
  match o with
  | [] => [(k, v)]
  | (k', v') :: o' =>
      if String.eqb k' k then (k', v) :: o' else (k', v') :: assoc_set k v o'
  end.

Definition keys (o : object) : list string := map fst o.

Definition show_nat (n : nat) : string :=
  NilEmpty.string_of_uint (Nat.to_uint n).

(** The indexed characters of a primitive string, as [Object.entries]
    lists them. *)
Fixpoint string_entries (i : nat) (s : string) : object :=
  match s with
  | EmptyString => []
  | String c r => (show_nat i, JStr (String c EmptyString)) :: string_entries (S i) r
  end.

Definition heap_object (h : heap) (l : loc) : object :=
  match h !! l with
  | Some o => o
  | None => []
  end.

(** [Object.entries(v)] for a value that is neither [null] nor
    [undefined]. *)
Definition Object_entries (h : heap) (v : jsval) : object :=
  match v with
  | JRef l => heap_object h l
  | JStr s => string_entries 0 s
  | _ => []
  end.

(** Property read [v[k]] for the keys the program uses (own properties). *)
Definition get_prop (h : heap) (v : jsval) (k : string) : jsval :=
  match assoc_get k (Object_entries h v) with
  | Some x => x
  | None => JUndefined
  end.

(** Property assignment [v[k] = x].  The file is an ES module, hence strict
    code: assigning to a property of a primitive throws. *)
Definition set_prop (h : heap) (v : jsval) (k : string) (x : jsval) : result heap :=
  match v with
  | JRef l => Ok (<[l := assoc_set k x (heap_object h l)]> h)
  | _ => Throw (TypeError "Cannot assign to property of a primitive value")
  end.

(** ** The console *)

Inductive level : Type := LLog | LWarn | LError.

Definition line : Type := (level * string)%type.

(** ** The imported [semver] functions

    [index.ts] imports [gt], [prerelease], [valid] and [diff] from the
    [semver] package.  The pipeline is stated over this interface; a model
    of the package follows in [Module SemverModel]. *)

Inductive ReleaseType : Type :=
| RtMajor | RtMinor | RtPatch | RtPremajor | RtPreminor | RtPrepatch | RtPrerelease.

Definition type_name (t : ReleaseType) : string :=
  match t with
  | RtMajor => "major"
  | RtMinor => "minor"
  | RtPatch => "patch"
  | RtPremajor => "premajor"
  | RtPreminor => "preminor"
  | RtPrepatch => "prepatch"
  | RtPrerelease => "prerelease"
  end.

Definition ReleaseType_eqb (a b : ReleaseType) : bool :=
  String.eqb (type_name a) (type_name b).

Inductive PreId : Type :=
| IdNum (n : N)
| IdStr (s : string).

Class SemverApi : Type := {
  (** [gt(a, b)]: throws a [TypeError] on an invalid version. *)
  gt : string -> string -> result bool;
  (** [prerelease(v)]: the prerelease components, or [null]. *)
  prerelease : string -> option (list PreId);
  (** [valid(v)]: the parsed version's string, or [null]. *)
  valid : string -> option string;
  (** [diff(a, b)]: the release type of the difference, or [null]. *)
  diff : string -> string -> result (option ReleaseType)
}.

(** ** The registry *)

(** What [fetch] of [https://registry.npmjs.org/<name>] and the decoding of
    its body come to. *)
Inductive Response : Type :=
| FetchRejected (err : string)
| NotOk (statusText : string)
| BadBody (err : string)
| DistTags (latest : option string).

Definition Registry : Type := string -> Response.

(** ** The program *)

Record Flags : Type := {
  shouldUpdate : bool;
  updatePatch : bool;
  updateMinor : bool;
  updateMajor : bool
}.

Record OutdatedInfo : Type := {
  name : string;
  current : string;
  latest : string;
  type : option ReleaseType
}.

(** [s.startsWith(p)] *)
Fixpoint startsWith (s p : string) {struct p} : bool :=
  match p with
  | EmptyString => true
  | String c p' =>
      match s with
      | EmptyString => false
      | String d s' => Ascii.eqb d c && startsWith s' p'
      end
  end.

Definition is_digit (c : ascii) : bool :=
  let n := nat_of_ascii c in (48 <=? n)%nat && (n <=? 57)%nat.

Definition is_dot (c : ascii) : bool := Ascii.eqb c ".".

(** [s.replace(/[^\d.]/g, '')] *)
Fixpoint strip_non_digit_dot (s : string) : string :=
  match s with
  | EmptyString => EmptyString
  | String c r =>
      if is_digit c || is_dot c
      then String c (strip_non_digit_dot r)
      else strip_non_digit_dot r
  end.

(** Line 125: [version?.replace(/[^\d.]/g, '') || ''].  The optional chain
    skips the call for [null] and [undefined] only; any other value without
    a [replace] method makes the call throw. *)
Definition cleanVersion (version : jsval) : result string :=
  match version with
  | JUndefined | JNull => Ok ""
  | JStr s => Ok (strip_non_digit_dot s)
  | _ => Throw (TypeError "version.replace is not a function")
  end.

(** Whether the callback of [dependencies.map] throws on line 125, before
    its first [await]: its promise is rejected by the time [Promise.all] is
    called. *)
Definition throws_at_once (version : jsval) : bool :=
  match cleanVersion version with
  | Throw _ => true
  | Ok _ => false
  end.

(** Lines 75-88: the latest version, or [null] with the line logged by the
    failing branch. *)
Definition getLatestVersion (registry : Registry) (packageName : string)
  : list line * option string :=
  match registry packageName with
  | NotOk statusText =>
      ([(LWarn, "Failed to fetch version for " +:+ packageName +:+ ": " +:+ statusText)],
       None)
  | DistTags l => ([], l)
  | FetchRejected err | BadBody err =>
      ([(LError, "Error fetching version for " +:+ packageName +:+ ": " +:+ err)], None)
  end.

(** *** The report *)

(** [grouped]: bucket name to the entries pushed so far. *)
Definition Grouped : Type := list (string * list OutdatedInfo).

Definition grouped_init : Grouped :=
  [("major", []); ("minor", []); ("patch", []); ("premajor", []);
   ("preminor", []); ("prepatch", []); ("prerelease", [])].

(** [grouped[k]], [undefined] as [None]. *)
Fixpoint bucket (k : string) (g : Grouped) : option (list OutdatedInfo) :=
  match g with
  | [] => None
  | (k', l) :: g' => if String.eqb k' k then Some l else bucket k g'
  end.

(** [grouped[k].push(dep)] on an existing bucket. *)
Fixpoint push (k : string) (dep : OutdatedInfo) (g : Grouped) : Grouped :=
  match g with
  | [] => []
  | (k', l) :: g' =>
      if String.eqb k' k then (k', l ++ [dep]) :: g' else (k', l) :: push k dep g'
  end.

(** First [outdated.forEach]: push into the bucket of the entry's type. *)
Definition group_known (g : Grouped) (dep : OutdatedInfo) : Grouped :=
  match type dep with
  | Some t => if non_null (bucket (type_name t) g) then push (type_name t) dep g else g
  | None => g
  end.

(** Second [outdated.forEach]: an entry whose type has no bucket goes to
    [grouped.other], created on first use. *)
Definition group_other (g : Grouped) (dep : OutdatedInfo) : Grouped :=
  match type dep with
  | Some t =>
      if negb (non_null (bucket (type_name t) g)) then
        let g' := if negb (non_null (bucket "other" g)) then g ++ [("other", [])] else g in
        push "other" dep g'
      else g
  | None => g
  end.

Definition group (outdated : list OutdatedInfo) : Grouped :=
  fold_left group_other outdated (fold_left group_known outdated grouped_init).

Definition bucket_of (k : string) (g : Grouped) : list OutdatedInfo :=
  match bucket k g with
  | Some l => l
  | None => []
  end.

Definition nl : string := String "010"%char EmptyString.
Definition esc : string := String "027"%char EmptyString.

Definition entry_line (dep : OutdatedInfo) : line :=
  (LLog, "    " +:+ name dep +:+ ": " +:+ current dep +:+ " -> " +:+ latest dep).

(** [if (deps.length) { console.log(title); deps.forEach(...) }] *)
Definition print_bucket (title : string) (deps : list OutdatedInfo) : list line :=
  match deps with
  | [] => []
  | _ => (LLog, title) :: map entry_line deps
  end.

Definition major_title : string := nl +:+ "  " +:+ esc +:+ "[31mMajor Updates:" +:+ esc +:+ "[0m".
Definition minor_title : string := nl +:+ "  " +:+ esc +:+ "[34mMinor Updates:" +:+ esc +:+ "[0m".
Definition patch_title : string := nl +:+ "  " +:+ esc +:+ "[32mPatch Updates:" +:+ esc +:+ "[0m".

(** Lines 141-165: everything printed about a non-empty [outdated]. *)
Definition report (outdated : list OutdatedInfo) : list line :=
  let grouped := group outdated in
  [(LLog, "Outdated dependencies found:")]
  ++ print_bucket major_title (bucket_of "major" grouped)
  ++ print_bucket minor_title (bucket_of "minor" grouped)
  ++ print_bucket patch_title (bucket_of "patch" grouped).

(** *** The update *)

Definition has_type (dep : OutdatedInfo) (t : ReleaseType) : bool :=
  match type dep with
  | Some t' => ReleaseType_eqb t' t
  | None => false
  end.

(** Lines 169-176. *)
Definition toUpdate (fl : Flags) (outdated : list OutdatedInfo) : list OutdatedInfo :=
  if updatePatch fl || updateMinor fl || updateMajor fl then
    List.filter (fun dep =>
                   (updatePatch fl && has_type dep RtPatch)
                   || (updateMinor fl && has_type dep RtMinor)
                   || (updateMajor fl && has_type dep RtMajor)) outdated
  else outdated.

(** [current.startsWith('^') ? `^${latest}` : latest] *)
Definition new_range (dep : OutdatedInfo) : string :=
  if startsWith (current dep) "^" then "^" +:+ latest dep else latest dep.

(** [doc.catalog || {}]: either a value of the document or the fresh empty
    object of the right-hand side, which nothing else refers to. *)
Inductive Catalog : Type :=
| FromDoc (v : jsval)
| FreshEmpty.

Definition catalog_entries (h : heap) (c : Catalog) : object :=
  match c with
  | FromDoc v => Object_entries h v
  | FreshEmpty => []
  end.

Definition catalog_get (h : heap) (c : Catalog) (k : string) : jsval :=
  match c with
  | FromDoc v => get_prop h v k
  | FreshEmpty => JUndefined
  end.

Definition catalog_set (h : heap) (c : Catalog) (k : string) (x : jsval) : result heap :=
  match c with
  | FromDoc v => set_prop h v k x
  | FreshEmpty => Ok h
  end.

(** One step of [toUpdate.forEach]. *)
Definition update_entry (c : Catalog) (h : heap) (dep : OutdatedInfo) : result heap :=
  if truthy (catalog_get h c (name dep))
  then catalog_set h c (name dep) (JStr (new_range dep))
  else Ok h.

(** Lines 178-182.  An assignment throws only for a catalog that is a
    primitive, on which no assignment succeeds: the heap at a throw is the
    initial one. *)
Fixpoint apply_updates (c : Catalog) (h : heap) (deps : list OutdatedInfo) : result heap :=
  match deps with
  | [] => Ok h
  | dep :: deps' =>
      let* h' := update_entry c h dep in
      apply_updates c h' deps'
  end.

(** [doc.catalog || {}], where reading a property of [null] or [undefined]
    throws. *)
Definition doc_catalog (h : heap) (doc : jsval) : result Catalog :=
  match doc with
  | JUndefined | JNull =>
      Throw (TypeError "undefined is not an object (evaluating 'doc.catalog')")
  | _ =>
      let v := get_prop h doc "catalog" in
      Ok (if truthy v then FromDoc v else FreshEmpty)
  end.

(** What a run leaves behind: the console, the heap, and the document
    handed to [yaml.dump] and [Bun.write], if any. *)
Record Outcome : Type := {
  console : list line;
  final : heap;
  written : option (heap * jsval)
}.

(** The [catch] of [checkDependencies]. *)
Definition caught (out : list line) (h : heap) (e : exn) : Outcome :=
  let 'TypeError msg := e in
  {| console := out ++ [(LError, "Error checking dependencies: " +:+ msg)];
     final := h;
     written := None |}.

(** The [catch] after a rejected [Promise.all]: the error line follows
    what was logged before the rejection, and the lookups still pending
    log after it. *)
Definition aborted (before after : list line) (h : heap) (e : exn) : Outcome :=
  let 'TypeError msg := e in
  {| console := before ++ [(LError, "Error checking dependencies: " +:+ msg)] ++ after;
     final := h;
     written := None |}.

(** The promises in the order they settle with a value, or the first
    rejection in that order. *)
Fixpoint all_in_order {A : Type} (rs : list (result A)) : result (list A) :=
  match rs with
  | [] => Ok []
  | r :: rs' =>
      let* a := r in
      let* l := all_in_order rs' in
      Ok (a :: l)
  end.

(** The rejection of the first promise that is rejected already when
    [Promise.all] is called; each promise comes with whether its callback
    threw before its first [await]. *)
Fixpoint first_rejected {A : Type} (ps : list (bool * result A)) : option exn :=
  match ps with
  | [] => None
  | (true, Throw ex) :: _ => Some ex
  | _ :: ps' => first_rejected ps'
  end.

(** [Promise.all]: all the values, or the rejection that happens first.  A
    promise rejected before the call comes before every promise that waits
    for its lookup; the lookups complete in catalog order. *)
Definition promise_all {A : Type} (ps : list (bool * result A)) : result (list A) :=
  match first_rejected ps with
  | Some ex => Throw ex
  | None => all_in_order (map snd ps)
  end.

(** What the lookups log before the first rejection among callbacks that
    all reached their lookup, and what they log after it. *)
Fixpoint logged_around_rejection {A : Type} (checked : list (list line * result A))
  : list line * list line :=
  match checked with
  | [] => ([], [])
  | (out, Throw _) :: rest => (out, concat (map fst rest))
  | (out, Ok _) :: rest =>
      (out ++ fst (logged_around_rejection rest), snd (logged_around_rejection rest))
  end.

Section Pipeline.

Context {semver : SemverApi}.
Variable registry : Registry.

(** Lines 124-135, the callback of [dependencies.map]: one catalog entry
    to [OutdatedInfo | null], with the lines it logs. *)
Definition check_entry (e : string * jsval)
  : list line * result (option OutdatedInfo) :=
  let '(nm, version) := e in
  match cleanVersion version with
  | Throw ex => ([], Throw ex)
  | Ok clean =>
      match version with
      | JStr v =>
          if non_null (prerelease v) || negb (truthy_str (valid clean))
          then ([], Ok None)
          else
            let '(out, latestVersion) := getLatestVersion registry nm in
            if truthy_str latestVersion then
              match latestVersion with
              | Some l =>
                  match gt l clean with
                  | Throw ex => (out, Throw ex)
                  | Ok true =>
                      match diff clean l with
                      | Throw ex => (out, Throw ex)
                      | Ok diffType =>
                          (out, Ok (Some {| name := nm; current := v;
                                            latest := l; type := diffType |}))
                      end
                  | Ok false => (out, Ok None)
                  end
              | None => (out, Ok None)
              end
            else (out, Ok None)
      | _ => ([], Ok None)
      end
  end.

(** [results.filter(result => result !== null)] *)
Fixpoint filter_non_null (rs : list (option OutdatedInfo)) : list OutdatedInfo :=
  match rs with
  | [] => []
  | Some d :: rs' => d :: filter_non_null rs'
  | None :: rs' => filter_non_null rs'
  end.

(** Lines 121-138: the entries, what checking them logs, and
    [await Promise.all(promises)]. *)
Definition run_checks (dependencies : object)
  : list line * result (list OutdatedInfo) :=
  let checked := map check_entry dependencies in
  (concat (map fst checked),
   let* results :=
     promise_all (map (fun e => (throws_at_once (snd e), snd (check_entry e))) dependencies) in
   Ok (filter_non_null results)).

(** The lines of the lookups around the rejection of [Promise.all]: when a
    callback threw at once the [catch] runs before any lookup completes;
    otherwise it runs when the first callback throws after its lookup. *)
Definition lookups_around_rejection (dependencies : object) : list line * list line :=
  let checked := map check_entry dependencies in
  if existsb (fun e => throws_at_once (snd e)) dependencies
  then ([], concat (map fst checked))
  else logged_around_rejection checked.

Definition found_line (dependencies : object) : line :=
  (LLog, "Found " +:+ show_nat (length dependencies)
         +:+ " dependencies in catalog. Fetching latest versions in parallel...").

(** Lines 119-192: [checkDependencies], from the parsed document [doc]
    on.  The writes of [yaml.dump] and [Bun.write] are recorded in
    [written]. *)
Definition checkDependencies (fl : Flags) (h : heap) (doc : jsval) : Outcome :=
  match doc_catalog h doc with
  | Throw ex => caught [] h ex
  | Ok catalog =>
      let dependencies := catalog_entries h catalog in
      let '(fetch_out, checks) := run_checks dependencies in
      let out1 := found_line dependencies :: fetch_out in
      match checks with
      | Throw ex =>
          aborted (found_line dependencies :: fst (lookups_around_rejection dependencies))
            (snd (lookups_around_rejection dependencies)) h ex
      | Ok outdated =>
          match outdated with
          | _ :: _ =>
              let out2 := out1 ++ report outdated in
              if shouldUpdate fl then
                let out3 :=
                  out2 ++ [(LLog, nl +:+ "--update flag detected. Updating pnpm-workspace.yaml...")] in
                match apply_updates catalog h (toUpdate fl outdated) with
                | Throw ex => caught out3 h ex
                | Ok h' =>
                    {| console := out3 ++ [(LLog, "pnpm-workspace.yaml has been updated.")];
                       final := h';
                       written := Some (h', doc) |}
                end
              else {| console := out2; final := h; written := None |}
          | [] =>
              {| console := out1 ++ [(LLog, "All dependencies are up to date.")];
                 final := h;
                 written := None |}
          end
      end
  end.

(** The outdated set a run computes. *)
Definition outdated_of (h : heap) (doc : jsval) : result (list OutdatedInfo) :=
  let* catalog := doc_catalog h doc in
  snd (run_checks (catalog_entries h catalog)).

End Pipeline.

(** ** A model of the [semver] package

    Modelled from the spec: the [semver] package is an npm dependency of
    the program and its code is not among the sources.  The spec asks for
    "standard semantic-version precedence rules (major.minor.patch, with
    pre-release segments sorting below the corresponding release)"; this
    module writes them out the way the package's strict (non-loose) mode
    does: a version is [v?MAJOR.MINOR.PATCH(-PRERELEASE)?(+BUILD)?] after
    trimming, numeric identifiers have no leading zero and do not exceed
    [MAX_SAFE_INTEGER], and the input has at most [MAX_LENGTH] characters.
    Numeric prerelease identifiers are compared as exact naturals. *)

Module SemverModel.

Definition MAX_LENGTH : nat := 256.
Definition MAX_SAFE_INTEGER : N := 9007199254740991.

Record SemVer : Type := {
  major : N;
  minor : N;
  patch : N;
  pre : list PreId;
  build : list string
}.

Definition is_space (c : ascii) : bool :=
  match nat_of_ascii c with
  | 9 | 10 | 11 | 12 | 13 | 32 => true
  | _ => false
  end.

Fixpoint drop_spaces (cs : list ascii) : list ascii :=
  match cs with
  | [] => []
  | c :: r => if is_space c then drop_spaces r else cs
  end.

(** [version.trim()], on ASCII white space. *)
Definition trim (cs : list ascii) : list ascii :=
  rev (drop_spaces (rev (drop_spaces cs))).

(** Cut at the first [c]: what is before it, and what is after it if it
    occurs. *)
Fixpoint break_at (c : ascii) (cs : list ascii) : list ascii * option (list ascii) :=
  match cs with
  | [] => ([], None)
  | x :: r =>
      if Ascii.eqb x c then ([], Some r)
      else let '(a, b) := break_at c r in (x :: a, b)
  end.

(** [cs.split(c)] *)
Fixpoint split_on (c : ascii) (cs : list ascii) : list (list ascii) :=
  match cs with
  | [] => [[]]
  | x :: r =>
      if Ascii.eqb x c then [] :: split_on c r
      else match split_on c r with
           | [] => [[x]]
           | p :: ps => (x :: p) :: ps
           end
  end.

Definition digit_value (c : ascii) : N := N.of_nat (nat_of_ascii c - 48).

Definition digits_value (cs : list ascii) : N :=
  fold_left (fun acc c => (acc * 10 + digit_value c)%N) cs 0%N.

(** [0|[1-9]\d*] *)
Definition numeric_identifier (cs : list ascii) : bool :=
  match cs with
  | [] => false
  | [c] => is_digit c
  | c :: r => is_digit c && negb (Ascii.eqb c "0") && forallb is_digit r
  end.

(** [[a-zA-Z0-9-]] *)
Definition is_letter_dash_number (c : ascii) : bool :=
  let n := nat_of_ascii c in
  is_digit c
  || ((65 <=? n)%nat && (n <=? 90)%nat)
  || ((97 <=? n)%nat && (n <=? 122)%nat)
  || Ascii.eqb c "-".

(** A prerelease identifier: numeric, or [\d*[a-zA-Z-][a-zA-Z0-9-]*]. *)
Definition prerelease_identifier (cs : list ascii) : bool :=
  match cs with
  | [] => false
  | _ => forallb is_letter_dash_number cs
         && (negb (forallb is_digit cs) || numeric_identifier cs)
  end.

(** A build identifier: [[a-zA-Z0-9-]+]. *)
Definition build_identifier (cs : list ascii) : bool :=
  match cs with
  | [] => false
  | _ => forallb is_letter_dash_number cs
  end.

(** The main part: three numeric identifiers within the safe range. *)
Definition parse_main (cs : list ascii) : option (N * N * N) :=
  match split_on "." cs with
  | [a; b; c] =>
      if numeric_identifier a && numeric_identifier b && numeric_identifier c
         && (digits_value a <=? MAX_SAFE_INTEGER)%N
         && (digits_value b <=? MAX_SAFE_INTEGER)%N
         && (digits_value c <=? MAX_SAFE_INTEGER)%N
      then Some (digits_value a, digits_value b, digits_value c)
      else None
  | _ => None
  end.

(** A prerelease component becomes a number when it is all digits and
    below [MAX_SAFE_INTEGER]. *)
Definition pre_component (cs : list ascii) : PreId :=
  if forallb is_digit cs && (digits_value cs <? MAX_SAFE_INTEGER)%N
  then IdNum (digits_value cs)
  else IdStr (string_of_list_ascii cs).

Definition parse_pre (p : option (list ascii)) : option (list PreId) :=
  match p with
  | None => Some []
  | Some cs =>
      let ids := split_on "." cs in
      if forallb prerelease_identifier ids then Some (map pre_component ids) else None
  end.

Definition parse_build (b : option (list ascii)) : option (list string) :=
  match b with
  | None => Some []
  | Some cs =>
      let ids := split_on "." cs in
      if forallb build_identifier ids then Some (map string_of_list_ascii ids) else None
  end.

(** [new SemVer(version)], [None] where the constructor throws. *)
Definition parse (version : string) : option SemVer :=
  if (MAX_LENGTH <? String.length version)%nat then None
  else
    let cs := trim (list_ascii_of_string version) in
    let cs := match cs with
              | c :: r => if Ascii.eqb c "v" then r else cs
              | [] => cs
              end in
    let '(mp, b) := break_at "+" cs in
    let '(m, p) := break_at "-" mp in
    match parse_main m, parse_pre p, parse_build b with
    | Some (x, y, z), Some ids, Some bs =>
        Some {| major := x; minor := y; patch := z; pre := ids; build := bs |}
    | _, _, _ => None
    end.

Definition show_N (n : N) : string :=
  NilEmpty.string_of_uint (N.to_uint n).

Definition show_id (i : PreId) : string :=
  match i with
  | IdNum n => show_N n
  | IdStr s => s
  end.

Fixpoint join_dots (l : list string) : string :=
  match l with
  | [] => ""
  | [s] => s
  | s :: r => s +:+ "." +:+ join_dots r
  end.

(** [SemVer.format]: the [version] field. *)
Definition format (v : SemVer) : string :=
  let m := show_N (major v) +:+ "." +:+ show_N (minor v) +:+ "." +:+ show_N (patch v) in
  match pre v with
  | [] => m
  | ids => m +:+ "-" +:+ join_dots (map show_id ids)
  end.

Definition compareMain (a b : SemVer) : comparison :=
  match (major a ?= major b)%N with
  | Eq => match (minor a ?= minor b)%N with
          | Eq => (patch a ?= patch b)%N
          | c => c
          end
  | c => c
  end.

Definition id_numeric (i : PreId) : option N :=
  match i with
  | IdNum n => Some n
  | IdStr s =>
      let cs := list_ascii_of_string s in
      match cs with
      | [] => None
      | _ => if forallb is_digit cs then Some (digits_value cs) else None
      end
  end.

Fixpoint compare_chars (a b : list ascii) : comparison :=
  match a, b with
  | [], [] => Eq
  | [], _ :: _ => Lt
  | _ :: _, [] => Gt
  | x :: a', y :: b' =>
      match (nat_of_ascii x ?= nat_of_ascii y)%nat with
      | Eq => compare_chars a' b'
      | c => c
      end
  end.

Definition compareIdentifiers (a b : PreId) : comparison :=
  match id_numeric a, id_numeric b with
  | Some x, Some y => (x ?= y)%N
  | Some _, None => Lt
  | None, Some _ => Gt
  | None, None =>
      compare_chars (list_ascii_of_string (show_id a)) (list_ascii_of_string (show_id b))
  end.

Definition PreId_eqb (a b : PreId) : bool :=
  match a, b with
  | IdNum x, IdNum y => (x =? y)%N
  | IdStr x, IdStr y => String.eqb x y
  | _, _ => false
  end.

(** The loop of [comparePre] over the two identifier lists. *)
Fixpoint compare_ids (a b : list PreId) : comparison :=
  match a, b with
  | [], [] => Eq
  | _ :: _, [] => Gt
  | [], _ :: _ => Lt
  | x :: a', y :: b' =>
      if PreId_eqb x y then compare_ids a' b' else compareIdentifiers x y
  end.

Definition comparePre (a b : SemVer) : comparison :=
  match pre a, pre b with
  | _ :: _, [] => Lt
  | [], _ :: _ => Gt
  | [], [] => Eq
  | x, y => compare_ids x y
  end.

Definition compare (a b : SemVer) : comparison :=
  match compareMain a b with
  | Eq => comparePre a b
  | c => c
  end.

Definition invalid_version (v : string) : exn :=
  TypeError ("Invalid Version: " +:+ v).

Definition gt (a b : string) : result bool :=
  match parse a with
  | None => Throw (invalid_version a)
  | Some x =>
      match parse b with
      | None => Throw (invalid_version b)
      | Some y => Ok (match compare x y with Gt => true | _ => false end)
      end
  end.

Definition prerelease (version : string) : option (list PreId) :=
  match parse version with
  | Some v => match pre v with
              | [] => None
              | ids => Some ids
              end
  | None => None
  end.

Definition valid (version : string) : option string :=
  match parse version with
  | Some v => Some (format v)
  | None => None
  end.

Definition has_pre (v : SemVer) : bool :=
  match pre v with
  | [] => false
  | _ => true
  end.

Definition is_zero (n : N) : bool := (n =? 0)%N.

(** [diff(version1, version2)].  The branch for a prerelease low version
    is the package's special casing; the program only passes a low version
    made of digits and dots. *)
Definition diff (version1 version2 : string) : result (option ReleaseType) :=
  match parse version1 with
  | None => Throw (invalid_version version1)
  | Some v1 =>
      match parse version2 with
      | None => Throw (invalid_version version2)
      | Some v2 =>
          let comparison := compare v1 v2 in
          match comparison with
          | Eq => Ok None
          | _ =>
              let v1Higher := match comparison with Gt => true | _ => false end in
              let highVersion := if v1Higher then v1 else v2 in
              let lowVersion := if v1Higher then v2 else v1 in
              let highHasPre := has_pre highVersion in
              let lowHasPre := has_pre lowVersion in
              let general :=
                if negb (major v1 =? major v2)%N
                then (if highHasPre then RtPremajor else RtMajor)
                else if negb (minor v1 =? minor v2)%N
                then (if highHasPre then RtPreminor else RtMinor)
                else if negb (patch v1 =? patch v2)%N
                then (if highHasPre then RtPrepatch else RtPatch)
                else RtPrerelease in
              if lowHasPre && negb highHasPre then
                if is_zero (patch lowVersion) && is_zero (minor lowVersion)
                then Ok (Some RtMajor)
                else
                  match compareMain lowVersion highVersion with
                  | Eq =>
                      if negb (is_zero (minor lowVersion)) && is_zero (patch lowVersion)
                      then Ok (Some RtMinor)
                      else Ok (Some RtPatch)
                  | _ => Ok (Some general)
                  end
              else Ok (Some general)
          end
      end
  end.

(** *** Notions used to reason about the model *)

(** The characters [replace(/[^\d.]/g, '')] keeps. *)
Definition kept (c : ascii) : bool := is_digit c || is_dot c.

(** The pieces of [ps ++ qs] where the last piece of [ps] and the first of
    [qs] are one piece. *)
Fixpoint app_last (ps qs : list (list ascii)) : list (list ascii) :=
  match ps with
  | [] => qs
  | [p] => match qs with
           | [] => [p]
           | q :: qs' => (p ++ q) :: qs'
           end
  | p :: ps' => p :: app_last ps' qs
  end.

(** [ps.join(c)] *)
Fixpoint join (c : ascii) (ps : list (list ascii)) : list ascii :=
  match ps with
  | [] => []
  | [p] => p
  | p :: ps' => p ++ c :: join c ps'
  end.

End SemverModel.

#[export] Instance semver_model : SemverApi :=
  {| gt := SemverModel.gt;
     prerelease := SemverModel.prerelease;
     valid := SemverModel.valid;
     diff := SemverModel.diff |}.

(** ** Notions used to state the properties *)

(** The effect of one step of [toUpdate.forEach] on the catalog object. *)
Definition update_object (o : object) (dep : OutdatedInfo) : object :=
  match assoc_get (name dep) o with
  | Some v => if truthy v then assoc_set (name dep) (JStr (new_range dep)) o else o
  | None => o
  end.

(** The dependency names of the document's catalog. *)
Definition catalog_names (h : heap) (doc : jsval) : list string :=
  match doc_catalog h doc with
  | Ok c => keys (catalog_entries h c)
  | Throw _ => []
  end.

(** The location of the catalog mapping, when it is an object. *)
Definition catalog_loc (c : Catalog) : option loc :=
  match c with
  | FromDoc (JRef l) => Some l
  | _ => None
  end.

(** Own property names are unique in every object of the heap. *)
Definition unique_keys (h : heap) : Prop :=
  forall (l : loc) (o : object), h !! l = Some o -> NoDup (keys o).

(** The prefix convention of a range: what precedes its first digit. *)
Fixpoint range_prefix (s : string) : string :=
  match s with
  | EmptyString => EmptyString
  | String c r => if is_digit c then EmptyString else String c (range_prefix r)
  end.

(** The filter of lines 171-175 on one entry. *)
Definition selected (fl : Flags) (dep : OutdatedInfo) : bool :=
  (updatePatch fl && has_type dep RtPatch)
  || (updateMinor fl && has_type dep RtMinor)
  || (updateMajor fl && has_type dep RtMajor).

Definition any_filter (fl : Flags) : bool :=
  updatePatch fl || updateMinor fl || updateMajor fl.

(** The lookup of a dependency did not produce a packument. *)
Definition lookup_failed (r : Response) : bool :=
  match r with
  | DistTags _ => false
  | _ => true
  end.

(** A diagnostic goes to the error stream: [console.warn] or
    [console.error]. *)
Definition is_diagnostic (l : line) : bool :=
  match fst l with
  | LLog => false
  | LWarn | LError => true
  end.

(** The data a value stands for: the tree [yaml.dump] walks, unfolded to a
    given depth. *)
#[warnings="-register-all"]
Inductive data : Type :=
| DUndefined
| DNull
| DBool (b : bool)
| DNum (n : Z)
| DStr (s : string)
| DObj (fields : list (string * data))
| DCut.

Fixpoint reify (depth : nat) (h : heap) (v : jsval) : data :=
  match v with
  | JUndefined => DUndefined
  | JNull => DNull
  | JBool b => DBool b
  | JNum n => DNum n
  | JStr s => DStr s
  | JRef l =>
      match depth with
      | O => DCut
      | S d => DObj (map (fun kv => (fst kv, reify d h (snd kv))) (heap_object h l))
      end
  end.

(** Whether unfolding [v] to the given depth meets the object at [l]. *)
Fixpoint reaches (depth : nat) (h : heap) (v : jsval) (l : loc) : bool :=
  match v with
  | JRef l' =>
      Nat.eqb l' l
      || match depth with
         | O => false
         | S d => existsb (fun kv => reaches d h (snd kv) l) (heap_object h l')
         end
  | _ => false
  end.

(** The seven buckets of [grouped_init], in a [grouped] that may have
    been pushed to. *)
Definition canonical (g : Grouped) : Prop := map fst g = map fst grouped_init.

(** Whether the report has a line for an entry. *)
Definition shown (dep : OutdatedInfo) : bool :=
  has_type dep RtMajor || has_type dep RtMinor || has_type dep RtPatch.

Definition update_notice : line :=
  (LLog, nl +:+ "--update flag detected. Updating pnpm-workspace.yaml...").

Definition updated_notice : line :=
  (LLog, "pnpm-workspace.yaml has been updated.").

Definition all_flags_off : Flags :=
  {| shouldUpdate := false; updatePatch := false; updateMinor := false; updateMajor := false |}.

Definition update_all : Flags :=
  {| shouldUpdate := true; updatePatch := false; updateMinor := false; updateMajor := false |}.

Definition update_minor_only : Flags :=
  {| shouldUpdate := true; updatePatch := false; updateMinor := true; updateMajor := false |}.

(** *** Sample documents and registries *)

(** [{ packages: [...], catalog: { foo: ^1.2.3, bar: 1.2.3, baz: ~2.1.0, qux: 3.0.0 } }] *)
Definition sample_heap : heap :=
  {[ 0 := [("packages", JRef 2); ("catalog", JRef 1)];
     1 := [("foo", JStr "^1.2.3"); ("bar", JStr "1.2.3");
           ("baz", JStr "~2.1.0"); ("qux", JStr "3.0.0")];
     2 := [("0", JStr "apps/*")] ]}.

Definition sample_registry : Registry :=
  fun n =>
    if String.eqb n "foo" then DistTags (Some "1.3.0")
    else if String.eqb n "bar" then DistTags (Some "1.3.0")
    else if String.eqb n "baz" then DistTags (Some "3.0.0")
    else NotOk "Not Found".

(** The same registry with the lookup of [bar] failing. *)
Definition sample_registry_bar_down : Registry :=
  fun n => if String.eqb n "bar" then FetchRejected "ConnectionRefused" else sample_registry n.

(** The same registry with [qux] known. *)
Definition qux_registry : Registry :=
  fun n => if String.eqb n "qux" then DistTags (Some "3.0.1") else sample_registry n.

(** [{ catalog: { foo: 1.0.0, bar: 1.0.0 } }] against a registry whose
    [latest] tag of [foo] is not a version. *)
Definition canary_heap : heap :=
  {[ 0 := [("catalog", JRef 1)];
     1 := [("foo", JStr "1.0.0"); ("bar", JStr "1.0.0")] ]}.

Definition canary_registry : Registry :=
  fun n => if String.eqb n "foo" then DistTags (Some "canary") else DistTags (Some "1.3.0").

(** [{ catalog: { left-pad: ^1.0.0, next: 1.0.0 } }] with a prerelease
    published as [latest] for [next]. *)
Definition pre_heap : heap :=
  {[ 0 := [("catalog", JRef 1)];
     1 := [("left-pad", JStr "^1.0.0"); ("next", JStr "1.0.0")] ]}.

Definition pre_registry : Registry :=
  fun n =>
    if String.eqb n "next" then DistTags (Some "2.0.0-beta.1")
    else DistTags (Some "1.0.0").

(** [{ catalog: { foo: 1, bar: 1.0.0 } }]: the YAML scalar [1] is a number. *)
Definition number_heap : heap :=
  {[ 0 := [("catalog", JRef 1)];
     1 := [("foo", JNum 1); ("bar", JStr "1.0.0")] ]}.

(** [{ catalog: { foo: 1, bar: 1.0.0, qux: 3.0.0 } }]: a number, and an
    entry whose lookup the sample registry refuses. *)
Definition refused_heap : heap :=
  {[ 0 := [("catalog", JRef 1)];
     1 := [("foo", JNum 1); ("bar", JStr "1.0.0"); ("qux", JStr "3.0.0")] ]}.

(** [{ catalog: &c { foo: ^1.0.0 }, overrides: *c }]: the alias is the
    same object as the anchored catalog. *)
Definition alias_heap : heap :=
  {[ 0 := [("catalog", JRef 1); ("overrides", JRef 1)];
     1 := [("foo", JStr "^1.0.0")] ]}.

Definition alias_registry : Registry :=
  fun _ => DistTags (Some "2.0.0").

(** ** The command line and the locator

    The rest of [index.ts]: the flags read off [Bun.argv] (lines 29-42),
    the help text (lines 44-61), [findPnpmWorkspaceFile] (lines 6-28) and
    the head of [checkDependencies] that settles the manifest path (lines
    93-118).  The file system is what [Bun.file(path).exists()] answers, and
    the loader is [Bun.file(path).text()] followed by [yaml.load]. *)

(** [argv.has(x)] on [new Set(Bun.argv)] *)
Definition has (argv : list string) (x : string) : bool :=
  existsb (String.eqb x) argv.

(** Lines 30-33. *)
Definition parse_flags (argv : list string) : Flags :=
  {| shouldUpdate := has argv "--update";
     updatePatch := has argv "--patch";
     updateMinor := has argv "--minor";
     updateMajor := has argv "--major" |}.

(** Line 34. *)
Definition showHelp (argv : list string) : bool :=
  has argv "--help" || has argv "-h".

(** [l.findIndex(p)], [-1] as [None]. *)
Fixpoint findIndex (p : string -> bool) (l : list string) : option nat :=
  match l with
  | [] => None
  | x :: l' =>
      if p x then Some O
      else match findIndex p l' with
           | Some i => Some (S i)
           | None => None
           end
  end.

(** Lines 37-42: the argument after the first [-w], if there is one. *)
Definition workspaceFilePath (bunArgv : list string) : option string :=
  match findIndex (fun arg => String.eqb arg "-w") bunArgv with
  | Some wFlagIndex =>
      if (wFlagIndex + 1 <? length bunArgv)%nat
      then nth_error bunArgv (wFlagIndex + 1)
      else None
  | None => None
  end.

Definition helpText : string :=
"
Usage: pnpx workspace-updater [options]

Checks for outdated dependencies in the pnpm-workspace.yaml catalog.

Options:
  --update          Update the pnpm-workspace.yaml file with the latest versions.
  --patch           When used with --update, only update patch-level changes.
  --minor           When used with --update, only update minor-level changes.
  --major           When used with --update, only update major-level changes.
  -w <path>         Explicitly define the location of the pnpm-workspace.yaml file.
  -h, --help        Display this help message.
".

(** What [await Bun.file(path).exists()] comes to. *)
Inductive Probe : Type :=
| Exists
| Missing
| ProbeThrows.

Definition FileSystem : Type := string -> Probe.

Definition searchPaths : list string :=
  ["./pnpm-workspace.yaml"; "../pnpm-workspace.yaml"; "../../pnpm-workspace.yaml"].

(** The loop of lines 16-25: the first path that exists; a probe that
    throws goes on to the next path. *)
Fixpoint first_existing (fs : FileSystem) (paths : list string) : option string :=
  match paths with
  | [] => None
  | path :: paths' =>
      match fs path with
      | Exists => Some path
      | Missing | ProbeThrows => first_existing fs paths'
      end
  end.

(** Lines 6-28. *)
Definition findPnpmWorkspaceFile (fs : FileSystem) : option string :=
  first_existing fs searchPaths.

(** How lines 95-112 end: with the manifest path, with [process.exit(1)]
    after an error line, or with the rejection of a probe that is not
    caught there. *)
Inductive Located : Type :=
| LocatedAt (pnpmWorkspacePath : string)
| NotFound (message : string)
| ProbeRejected.

(** Lines 107-111: automatic detection. *)
Definition detect (fs : FileSystem) : Located :=
  match findPnpmWorkspaceFile fs with
  | Some path =>
      if negb (String.eqb path "") then LocatedAt path
      else NotFound "Error: pnpm-workspace.yaml not found in current directory or workspace root."
  | None =>
      NotFound "Error: pnpm-workspace.yaml not found in current directory or workspace root."
  end.

(** Lines 95-112: [if (workspaceFilePath)] takes the explicit path when
    it is a non-empty string. *)
Definition locate (explicit : option string) (fs : FileSystem) : Located :=
  match explicit with
  | Some path =>
      if negb (String.eqb path "") then
        match fs path with
        | Exists => LocatedAt path
        | Missing =>
            NotFound ("Error: pnpm-workspace.yaml not found at specified path: " +:+ path)
        | ProbeThrows => ProbeRejected
        end
      else detect fs
  | None => detect fs
  end.

(** Lines 117-118: reading and parsing the manifest, which may throw. *)
Inductive LoadResult : Type :=
| Loaded (h : heap) (doc : jsval)
| LoadFailed (err : string).

Definition Loader : Type := string -> LoadResult.

(** How the script ends: with a call of [process.exit(code)], by running
    to its end, or with the rejection of [checkDependencies()] that nothing
    handles. *)
Inductive Exit : Type :=
| ExitCode (code : nat)
| RunsToEnd
| UnhandledRejection.

Record ProgramOutcome : Type := {
  printed : list line;
  exit : Exit;
  wrote : option (string * (heap * jsval))
}.

Section Program.

Context {semver : SemverApi}.
Variable registry : Registry.

(** The script from top to bottom: the help gate (lines 58-61), then
    [checkDependencies()] with the flags of the command line. *)
Definition program (argv : list string) (fs : FileSystem) (load : Loader) : ProgramOutcome :=
  if showHelp argv then
    {| printed := [(LLog, helpText)]; exit := ExitCode 0; wrote := None |}
  else
    let out0 := [(LLog, "Looking for pnpm-workspace.yaml...")] in
    match locate (workspaceFilePath argv) fs with
    | ProbeRejected => {| printed := out0; exit := UnhandledRejection; wrote := None |}
    | NotFound message =>
        {| printed := out0 ++ [(LError, message)]; exit := ExitCode 1; wrote := None |}
    | LocatedAt pnpmWorkspacePath =>
        let out1 :=
          out0 ++ [(LLog, "Found pnpm-workspace.yaml at: " +:+ pnpmWorkspacePath);
                   (LLog, "Reading pnpm-workspace.yaml...")] in
        match load pnpmWorkspacePath with
        | LoadFailed err =>
            {| printed := out1 ++ [(LError, "Error checking dependencies: " +:+ err)];
               exit := RunsToEnd;
               wrote := None |}
        | Loaded h doc =>
            let run := checkDependencies registry (parse_flags argv) h doc in
            {| printed := out1 ++ console run;
               exit := RunsToEnd;
               wrote := match written run with
                        | Some w => Some (pnpmWorkspacePath, w)
                        | None => None
                        end |}
        end
    end.

End Program.

(** Strings made of the characters the normalization keeps, and of those
    it removes. *)
Fixpoint only_digits_dots (s : string) : bool :=
  match s with
  | EmptyString => true
  | String c r => (is_digit c || is_dot c) && only_digits_dots r
  end.

Fixpoint no_digits_dots (s : string) : bool :=
  match s with
  | EmptyString => true
  | String c r => negb (is_digit c || is_dot c) && no_digits_dots r
  end.

(** A file system with the manifest one level up only, and a loader that
    reads the sample document there. *)
Definition parent_fs : FileSystem :=
  fun path => if String.eqb path "../pnpm-workspace.yaml" then Exists
              else if String.eqb path "./pnpm-workspace.yaml" then ProbeThrows
              else Missing.

Definition sample_loader : Loader := fun _ => Loaded sample_heap (JRef 0).

(** The outdated entries of the sample documents. *)
Definition sample_foo : OutdatedInfo :=
  {| name := "foo"; current := "^1.2.3"; latest := "1.3.0"; type := Some RtMinor |}.
Definition sample_bar : OutdatedInfo :=
  {| name := "bar"; current := "1.2.3"; latest := "1.3.0"; type := Some RtMinor |}.
Definition sample_baz : OutdatedInfo :=
  {| name := "baz"; current := "~2.1.0"; latest := "3.0.0"; type := Some RtMajor |}.
Definition pre_next : OutdatedInfo :=
  {| name := "next"; current := "1.0.0"; latest := "2.0.0-beta.1"; type := Some RtPremajor |}.

Ltac ascii_cases c := destruct c as [[] [] [] [] [] [] [] []].

(** * Properties *)

(** ** The semver model on the spec's examples *)

Example semver_gt_minor : SemverModel.gt "1.3.0" "1.2.3" = Ok true.
Proof. reflexivity. Qed.
Example semver_diff_minor : SemverModel.diff "1.2.3" "1.3.0" = Ok (Some RtMinor).
Proof. reflexivity. Qed.
Example semver_diff_major : SemverModel.diff "1.2.3" "2.0.0" = Ok (Some RtMajor).
Proof. reflexivity. Qed.
Example semver_diff_patch : SemverModel.diff "1.2.3" "1.2.4" = Ok (Some RtPatch).
Proof. reflexivity. Qed.
Example semver_diff_premajor : SemverModel.diff "1.0.0" "2.0.0-beta.1" = Ok (Some RtPremajor).
Proof. reflexivity. Qed.
Example semver_valid_caret : SemverModel.valid "^1.2.3" = None.
Proof. reflexivity. Qed.
Example semver_valid_plain : SemverModel.valid " v1.2.3-rc.1+b7 " = Some "1.2.3-rc.1".
Proof. reflexivity. Qed.
Example semver_valid_leading_zero : SemverModel.valid "1.02.3" = None.
Proof. reflexivity. Qed.
Example semver_prerelease_ids : SemverModel.prerelease "1.2.3-beta.2" = Some [IdStr "beta"; IdNum 2].
Proof. reflexivity. Qed.

Arguments check_entry : simpl never.
Arguments run_checks : simpl never.
Arguments getLatestVersion : simpl never.

(** ** Objects as association lists *)

Lemma assoc_get_In k v (o : object) : assoc_get k o = Some v -> In (k, v) o.
Proof.
  induction o as [|[k' v'] o IH]; simpl; [discriminate|].
  destruct (String.eqb k' k) eqn:E.
  - apply String.eqb_eq in E. intros [= ->]. left. by subst.
  - intros H. right. by apply IH.
Qed.

Lemma assoc_get_NoDup k v (o : object) :
  NoDup (keys o) -> In (k, v) o -> assoc_get k o = Some v.
Proof.
  induction o as [|[k' v'] o IH]; simpl; [done|].
  intros Hnd [Heq|Hin].
  - inversion Heq; subst. by rewrite String.eqb_refl.
  - apply NoDup_cons in Hnd as [Hni Hnd].
    destruct (String.eqb k' k) eqn:E.
    + apply String.eqb_eq in E. subst. exfalso. apply Hni.
      apply list_elem_of_In. change k with (fst (k, v)). by apply in_map.
    + by apply IH.
Qed.

Lemma assoc_set_keys k v x (o : object) :
  assoc_get k o = Some v -> keys (assoc_set k x o) = keys o.
Proof.
  induction o as [|[k' v'] o IH]; simpl; [discriminate|].
  destruct (String.eqb k' k) eqn:E; simpl; [done|].
  intros H. f_equal. by apply IH.
Qed.

Lemma assoc_get_set_eq k v x (o : object) :
  assoc_get k o = Some v -> assoc_get k (assoc_set k x o) = Some x.
Proof.
  induction o as [|[k' v'] o IH]; simpl; [discriminate|].
  destruct (String.eqb k' k) eqn:E; simpl; rewrite E; [done|].
  apply IH.
Qed.

Lemma assoc_get_set_ne k k' x (o : object) :
  k <> k' -> assoc_get k' (assoc_set k x o) = assoc_get k' o.
Proof.
  intros Hne. induction o as [|[k0 v0] o IH]; simpl.
  - destruct (String.eqb k k') eqn:E; [|done].
    apply String.eqb_eq in E. by subst.
  - destruct (String.eqb k0 k) eqn:E; simpl.
    + apply String.eqb_eq in E. subst.
      destruct (String.eqb k k') eqn:E'; [|done].
      apply String.eqb_eq in E'. by subst.
    + by rewrite IH.
Qed.

Lemma update_object_keys (o : object) dep : keys (update_object o dep) = keys o.
Proof.
  unfold update_object. destruct (assoc_get (name dep) o) as [v|] eqn:E; [|done].
  destruct (truthy v); [|done]. by eapply assoc_set_keys.
Qed.

Lemma fold_update_object_keys deps : forall o : object,
  keys (fold_left update_object deps o) = keys o.
Proof.
  induction deps as [|d deps IH]; intros o; simpl; [done|].
  by rewrite IH, update_object_keys.
Qed.

Lemma update_object_other (o : object) dep k :
  name dep <> k -> assoc_get k (update_object o dep) = assoc_get k o.
Proof.
  intros Hne. unfold update_object.
  destruct (assoc_get (name dep) o) as [v|]; [|done].
  destruct (truthy v); [|done]. by apply assoc_get_set_ne.
Qed.

Lemma fold_update_object_other deps k : forall o : object,
  ~ In k (map name deps) ->
  assoc_get k (fold_left update_object deps o) = assoc_get k o.
Proof.
  induction deps as [|d deps IH]; intros o Hni; simpl; [done|].
  rewrite IH by (intros H; apply Hni; by right).
  apply update_object_other. intros H. apply Hni. by left.
Qed.

(** With distinct names in the update list, the entry of [dep] ends up
    holding the new range, provided its value was truthy. *)
Lemma fold_update_object_hit deps dep : forall (o : object) v,
  NoDup (map name deps) -> In dep deps ->
  assoc_get (name dep) o = Some v -> truthy v = true ->
  assoc_get (name dep) (fold_left update_object deps o) = Some (JStr (new_range dep)).
Proof.
  induction deps as [|d deps IH]; intros o v Hnd Hin Hget Htr; [done|].
  simpl in Hnd. apply NoDup_cons in Hnd as [Hni Hnd]. simpl.
  destruct Hin as [->|Hin].
  - rewrite fold_update_object_other.
    + unfold update_object. rewrite Hget, Htr. by eapply assoc_get_set_eq.
    + intros H. apply Hni. by apply list_elem_of_In.
  - assert (name d <> name dep) as Hne.
    { intros E. apply Hni. rewrite E. apply list_elem_of_In. by apply in_map. }
    eapply IH; eauto. by rewrite update_object_other.
Qed.

(** ** The update loop on the heap *)

Lemma heap_object_insert_eq (h : heap) l o : heap_object (<[l:=o]> h) l = o.
Proof. unfold heap_object. by rewrite lookup_insert_eq. Qed.

Lemma heap_object_agree (h h' : heap) l : h' !! l = h !! l -> heap_object h' l = heap_object h l.
Proof. unfold heap_object. by intros ->. Qed.

Lemma update_entry_ref l (h : heap) dep :
  exists h', update_entry (FromDoc (JRef l)) h dep = Ok h'
    /\ heap_object h' l = update_object (heap_object h l) dep
    /\ forall l', l' <> l -> h' !! l' = h !! l'.
Proof.
  unfold update_entry, update_object; simpl. unfold get_prop; simpl.
  destruct (assoc_get (name dep) (heap_object h l)) as [v|]; simpl.
  - destruct (truthy v).
    + eexists; split; [done|]. split; [apply heap_object_insert_eq|].
      intros l' Hne. by rewrite lookup_insert_ne.
    + by exists h.
  - by exists h.
Qed.

Lemma apply_updates_ref l deps : forall h : heap,
  exists h', apply_updates (FromDoc (JRef l)) h deps = Ok h'
    /\ heap_object h' l = fold_left update_object deps (heap_object h l)
    /\ forall l', l' <> l -> h' !! l' = h !! l'.
Proof.
  induction deps as [|d deps IH]; intros h; simpl.
  - by exists h.
  - destruct (update_entry_ref l h d) as (h1 & -> & Ho & Hother). simpl.
    destruct (IH h1) as (h2 & -> & Ho2 & Hother2).
    exists h2. split; [done|]. split.
    + by rewrite Ho2, Ho.
    + intros l' Hne. by rewrite Hother2, Hother.
Qed.

(** A catalog that is not an object of the heap is never written to. *)
Lemma apply_updates_no_object c deps : forall h h' : heap,
  catalog_loc c = None -> apply_updates c h deps = Ok h' -> h' = h.
Proof.
  induction deps as [|d deps IH]; intros h h' Hc; simpl; [by intros [= <-]|].
  unfold update_entry.
  destruct (truthy (catalog_get h c (name d))).
  - destruct c as [[| | | | |l]|]; simpl in *; try discriminate; try (by apply IH).
  - simpl. by apply IH.
Qed.

(** ** Checking the entries *)

Section Checks.

Context {semver : SemverApi}.
Variable registry : Registry.

Lemma run_checks_nil : snd (run_checks registry []) = Ok [].
Proof. reflexivity. Qed.

(** [Promise.all] resolves exactly when the promises, taken in order, all
    hold a value. *)
Lemma promise_all_Ok {A : Type} (ps : list (bool * result A)) l :
  promise_all ps = Ok l <-> all_in_order (map snd ps) = Ok l.
Proof.
  unfold promise_all. destruct (first_rejected ps) as [ex|] eqn:Hf; [|done].
  split; [discriminate|]. intros Hall. exfalso.
  revert l Hall. induction ps as [|[b r] ps IH]; intros l; [discriminate|].
  cbn [map snd all_in_order]. destruct r as [a|ex']; cbn [bind]; [|discriminate].
  destruct (all_in_order (map snd ps)) as [l'|] eqn:E; cbn [bind]; [|discriminate].
  intros _. apply (IH (ltac:(by destruct b)) l' eq_refl).
Qed.

Lemma promise_all_cons_Ok {A : Type} (b : bool) (r : result A) ps l :
  promise_all ((b, r) :: ps) = Ok l <->
  exists a l', r = Ok a /\ promise_all ps = Ok l' /\ l = a :: l'.
Proof.
  rewrite promise_all_Ok. cbn [map snd all_in_order]. split.
  - destruct r as [a|]; cbn [bind]; [|discriminate].
    destruct (all_in_order (map snd ps)) as [l'|] eqn:E; cbn [bind]; [|discriminate].
    intros [= <-]. exists a, l'. by rewrite promise_all_Ok.
  - intros (a & l' & -> & Hps & ->). apply promise_all_Ok in Hps.
    by rewrite Hps.
Qed.

(** The outdated set of a catalog with one more entry in front. *)
Lemma run_checks_Ok_cons e es outdated :
  snd (run_checks registry (e :: es)) = Ok outdated <->
  exists r l,
    snd (check_entry registry e) = Ok r
    /\ snd (run_checks registry es) = Ok l
    /\ outdated = match r with Some d => d :: l | None => l end.
Proof.
  unfold run_checks. cbn [snd map]. split.
  - destruct (promise_all _) as [results|] eqn:Hp; cbn [bind]; [|discriminate].
    intros [= <-]. apply promise_all_cons_Ok in Hp as (r & l' & Hr & Hp & ->).
    exists r, (filter_non_null l'). rewrite Hr, Hp. by destruct r.
  - intros (r & l & Hc & Hr & ->).
    destruct (promise_all
                (map (fun e0 => (throws_at_once (snd e0), snd (check_entry registry e0))) es))
      as [l'|] eqn:Hp; cbn [bind] in Hr; [|discriminate].
    injection Hr as <-.
    assert (promise_all
              ((throws_at_once (snd e), snd (check_entry registry e))
               :: map (fun e0 => (throws_at_once (snd e0), snd (check_entry registry e0))) es)
            = Ok (r :: l')) as ->.
    { apply promise_all_cons_Ok. by exists r, l'. }
    cbn [bind]. by destruct r.
Qed.

(** A rejected callback, or a rejected rest, rejects the whole. *)
Lemma run_checks_Throw_cons e es :
  (exists ex, snd (check_entry registry e) = Throw ex)
  \/ (exists ex, snd (run_checks registry es) = Throw ex) ->
  exists ex, snd (run_checks registry (e :: es)) = Throw ex.
Proof.
  intros H. destruct (snd (run_checks registry (e :: es))) as [out|ex] eqn:E; [|by eexists].
  apply run_checks_Ok_cons in E as (r & l & Hc & Hr & _).
  destruct H as [[ex H]|[ex H]]; congruence.
Qed.

(** What an [OutdatedInfo] records about the entry it comes from. *)
Lemma check_entry_some n v d :
  snd (check_entry registry (n, v)) = Ok (Some d) ->
  name d = n /\ v = JStr (current d)
  /\ prerelease (current d) = None
  /\ truthy_str (valid (strip_non_digit_dot (current d))) = true
  /\ snd (getLatestVersion registry n) = Some (latest d)
  /\ latest d <> ""
  /\ gt (latest d) (strip_non_digit_dot (current d)) = Ok true
  /\ diff (strip_non_digit_dot (current d)) (latest d) = Ok (type d).
Proof.
  unfold check_entry.
  destruct v as [| | | |s|]; simpl; try discriminate.
  destruct (prerelease s) as [ids|] eqn:Hpre; simpl; [discriminate|].
  destruct (truthy_str (valid (strip_non_digit_dot s))) eqn:Hval; simpl; [|discriminate].
  destruct (getLatestVersion registry n) as [out [l|]] eqn:Hlat; simpl; [|discriminate].
  destruct (String.eqb l "") eqn:Hl; simpl; [discriminate|].
  destruct (gt l (strip_non_digit_dot s)) as [[|]|] eqn:Hgt; simpl; try discriminate.
  destruct (diff (strip_non_digit_dot s) l) as [t|] eqn:Hdiff; simpl; [|discriminate].
  intros [= <-]; simpl. apply String.eqb_neq in Hl. by repeat split.
Qed.

(** A value that is neither a string nor [null]/[undefined] makes the
    callback throw, whatever the registry says. *)
Lemma check_entry_throws n v :
  cleanVersion v = Throw (TypeError "version.replace is not a function") ->
  snd (check_entry registry (n, v)) = Throw (TypeError "version.replace is not a function").
Proof. unfold check_entry. by intros ->. Qed.

Lemma run_checks_In es : forall outdated d,
  snd (run_checks registry es) = Ok outdated -> In d outdated ->
  In (name d, JStr (current d)) es
  /\ snd (check_entry registry (name d, JStr (current d))) = Ok (Some d).
Proof.
  induction es as [|[n v] es IH]; intros outdated d.
  - rewrite run_checks_nil. by intros [= <-].
  - intros (r & l & Hc & Hr & ->)%run_checks_Ok_cons Hin.
    assert (In d l -> In (name d, JStr (current d)) ((n, v) :: es)
                      /\ snd (check_entry registry (name d, JStr (current d))) = Ok (Some d)) as Htl.
    { intros H. destruct (IH l d Hr H). split; [by right|done]. }
    destruct r as [d0|]; [|by apply Htl].
    destruct Hin as [->|Hin]; [|by apply Htl].
    destruct (check_entry_some _ _ _ Hc) as (<- & -> & _). split; [by left|done].
Qed.

Lemma run_checks_names_NoDup es : forall outdated,
  NoDup (keys es) -> snd (run_checks registry es) = Ok outdated ->
  NoDup (map name outdated).
Proof.
  induction es as [|[n v] es IH]; intros outdated Hnd.
  - rewrite run_checks_nil. intros [= <-]. constructor.
  - simpl in Hnd. apply NoDup_cons in Hnd as [Hni Hnd].
    intros (r & l & Hc & Hr & ->)%run_checks_Ok_cons. specialize (IH l Hnd Hr).
    destruct r as [d0|]; [|done]. simpl. apply NoDup_cons. split; [|done].
    destruct (check_entry_some _ _ _ Hc) as (Hn & _).
    intros Hin. apply Hni. apply list_elem_of_In in Hin.
    apply in_map_iff in Hin as (d & Hd & Hin).
    destruct (run_checks_In es l d Hr Hin) as [Hin' _].
    apply list_elem_of_In. rewrite <- Hn, <- Hd.
    change (name d) with (fst (name d, JStr (current d))). by apply in_map.
Qed.

(** One throwing entry rejects the whole [Promise.all]. *)
Lemma run_checks_throw es e ex :
  In e es -> snd (check_entry registry e) = Throw ex ->
  exists ex', snd (run_checks registry es) = Throw ex'.
Proof.
  induction es as [|e0 es IH]; [done|].
  intros Hin Hthrow. apply run_checks_Throw_cons.
  destruct Hin as [->|Hin]; [left; by eexists|].
  right. by apply IH.
Qed.

(** ** The shape of a run *)

(** A run either changes nothing and writes nothing, or it has computed a
    non-empty outdated set under [--update], applied the selected updates
    and written the document. *)
Lemma checkDependencies_cases fl (h : heap) doc :
  let out := checkDependencies registry fl h doc in
  (final out = h /\ written out = None)
  \/ (exists c outdated h',
        doc_catalog h doc = Ok c
        /\ snd (run_checks registry (catalog_entries h c)) = Ok outdated
        /\ outdated <> []
        /\ shouldUpdate fl = true
        /\ apply_updates c h (toUpdate fl outdated) = Ok h'
        /\ final out = h' /\ written out = Some (h', doc)).
Proof.
  unfold checkDependencies.
  destruct (doc_catalog h doc) as [c|[msg]] eqn:Hc; [|by left].
  destruct (run_checks registry (catalog_entries h c)) as [fo [outdated|[msg]]] eqn:Hr;
    [|by left].
  destruct outdated as [|d0 outdated]; [by left|].
  destruct (shouldUpdate fl) eqn:Hu; [|by left].
  destruct (apply_updates c h (toUpdate fl (d0 :: outdated))) as [h'|[msg]] eqn:Ha;
    [|by left].
  right. exists c, (d0 :: outdated), h'. rewrite Hr. by repeat split.
Qed.

(** The catalog of the document cannot be the document itself in a run
    that gets past the checks: its [catalog] property would be an entry
    whose value is not a string. *)
Lemma catalog_not_root (h : heap) r l outdated :
  doc_catalog h (JRef r) = Ok (FromDoc (JRef l)) ->
  snd (run_checks registry (heap_object h l)) = Ok outdated ->
  r <> l.
Proof.
  intros Hc Hrun ->. unfold doc_catalog, get_prop in Hc. cbn [Object_entries] in Hc.
  destruct (assoc_get "catalog" (heap_object h l)) as [v|] eqn:Hget; [|discriminate].
  destruct (truthy v) eqn:Htr; [|discriminate].
  injection Hc as ->.
  apply assoc_get_In in Hget.
  destruct (run_checks_throw _ _ _ Hget (check_entry_throws "catalog" (JRef l) eq_refl)) as [ex Hex].
  congruence.
Qed.

End Checks.

(** ** What a run does to the heap *)

Section Runs.

Context {semver : SemverApi}.
Variable registry : Registry.

Lemma catalog_loc_Some c l : catalog_loc c = Some l -> c = FromDoc (JRef l).
Proof. destruct c as [[]|]; simpl; congruence. Qed.

(** The only object a run assigns into is the catalog mapping. *)
Lemma run_spec fl (h : heap) doc :
  let out := checkDependencies registry fl h doc in
  (final out = h /\ written out = None)
  \/ (exists c outdated,
        doc_catalog h doc = Ok c
        /\ snd (run_checks registry (catalog_entries h c)) = Ok outdated
        /\ outdated <> []
        /\ shouldUpdate fl = true
        /\ written out = Some (final out, doc)
        /\ match catalog_loc c with
           | Some l =>
               heap_object (final out) l
               = fold_left update_object (toUpdate fl outdated) (heap_object h l)
               /\ forall l', l' <> l -> final out !! l' = h !! l'
           | None => final out = h
           end).
Proof.
  intros out. subst out.
  destruct (checkDependencies_cases registry fl h doc)
    as [?|(c & outdated & h' & Hc & Hr & Hne & Hu & Ha & Hf & Hw)]; [by left|].
  right. exists c, outdated. rewrite Hw, Hf. repeat (split; [done|]).
  destruct (catalog_loc c) as [l|] eqn:Hl.
  - apply catalog_loc_Some in Hl. subst c.
    destruct (apply_updates_ref l (toUpdate fl outdated) h) as (h2 & Ha2 & Ho & Hother).
    rewrite Ha in Ha2. by injection Ha2 as <-.
  - by eapply apply_updates_no_object.
Qed.

Lemma doc_catalog_agree (h h' : heap) doc :
  (forall r, doc = JRef r -> h' !! r = h !! r) ->
  doc_catalog h' doc = doc_catalog h doc.
Proof.
  intros Hagree. destruct doc as [| | | | |r]; try reflexivity.
  unfold doc_catalog, get_prop. cbn [Object_entries].
  by rewrite (heap_object_agree h h' r (Hagree r eq_refl)).
Qed.

(** After a run the document still has the catalog it had. *)
Lemma run_doc_catalog fl (h : heap) doc :
  doc_catalog (final (checkDependencies registry fl h doc)) doc = doc_catalog h doc.
Proof.
  destruct (run_spec fl h doc) as [[-> _]|(c & outdated & Hc & Hr & _ & _ & _ & Hfin)]; [done|].
  destruct (catalog_loc c) as [l|] eqn:Hl; [|by rewrite Hfin].
  apply catalog_loc_Some in Hl. subst c. destruct Hfin as [_ Hother].
  apply doc_catalog_agree. intros r ->. apply Hother.
  by eapply catalog_not_root.
Qed.

(** No object of the heap gains, loses or reorders a property. *)
Lemma run_keys fl (h : heap) doc l :
  keys (heap_object (final (checkDependencies registry fl h doc)) l) = keys (heap_object h l).
Proof.
  destruct (run_spec fl h doc) as [[-> _]|(c & outdated & Hc & Hr & _ & _ & _ & Hfin)]; [done|].
  destruct (catalog_loc c) as [lc|] eqn:Hl; [|by rewrite Hfin].
  destruct Hfin as [Hobj Hother].
  destruct (decide (l = lc)) as [->|Hne].
  - by rewrite Hobj, fold_update_object_keys.
  - by rewrite (heap_object_agree _ _ _ (Hother l Hne)).
Qed.

Lemma catalog_entries_keys (h h' : heap) c :
  (forall l, keys (heap_object h' l) = keys (heap_object h l)) ->
  keys (catalog_entries h' c) = keys (catalog_entries h c).
Proof. intros H. destruct c as [[]|]; simpl; auto. Qed.

End Runs.

(** ** C2: the catalog keeps its names *)

(** C2.  For every run (any flags, any registry answers, any document),
    the dependency names of the catalog after the run are exactly the names
    of the input catalog, in the same order: the updater assigns only to
    keys that are already present, and never adds or removes one. *)
Theorem C2_catalog_names_preserved
  {semver : SemverApi} (registry : Registry) (fl : Flags) (h : heap) (doc : jsval) :
  catalog_names (final (checkDependencies registry fl h doc)) doc = catalog_names h doc.
Proof.
  unfold catalog_names. rewrite run_doc_catalog.
  destruct (doc_catalog h doc) as [c|]; [|done].
  apply catalog_entries_keys. intros l. apply run_keys.
Qed.

(** ** The selection of updates *)

Lemma toUpdate_In fl outdated dep :
  In dep (toUpdate fl outdated) <->
  In dep outdated /\ (any_filter fl = false \/ selected fl dep = true).
Proof.
  unfold toUpdate, any_filter, selected.
  destruct (updatePatch fl || updateMinor fl || updateMajor fl) eqn:E.
  - rewrite filter_In. split; intros [? ?]; split; auto.
    by destruct H0.
  - split; [intros ?; split; auto|by intros [? _]].
Qed.

Lemma toUpdate_names_NoDup fl outdated :
  NoDup (map name outdated) -> NoDup (map name (toUpdate fl outdated)).
Proof.
  unfold toUpdate. destruct (updatePatch fl || updateMinor fl || updateMajor fl); [|done].
  induction outdated as [|d outdated IH]; simpl; [done|].
  intros [Hni Hnd]%NoDup_cons.
  match goal with |- context [if ?b then _ else _] => destruct b end; [|by apply IH].
  simpl. apply NoDup_cons. split; [|by apply IH].
  intros Hin. apply Hni. apply list_elem_of_In in Hin. apply list_elem_of_In.
  apply in_map_iff in Hin as (d' & Hd & Hin). apply filter_In in Hin as [Hin _].
  rewrite <- Hd. by apply in_map.
Qed.

Lemma toUpdate_names_subset fl outdated k :
  In k (map name (toUpdate fl outdated)) -> In k (map name outdated).
Proof.
  intros (d & <- & Hin)%in_map_iff. apply toUpdate_In in Hin as [Hin _].
  by apply in_map.
Qed.

Section Updates.

Context {semver : SemverApi}.
Variable registry : Registry.

Lemma outdated_of_catalog (h : heap) doc c outdated :
  doc_catalog h doc = Ok c ->
  outdated_of registry h doc = Ok outdated ->
  snd (run_checks registry (catalog_entries h c)) = Ok outdated.
Proof. unfold outdated_of. by intros ->. Qed.

(** A run under [--update] whose outdated set is not empty writes the
    document, after assigning to the catalog mapping only. *)
Lemma run_updates fl (h : heap) doc l outdated :
  doc_catalog h doc = Ok (FromDoc (JRef l)) ->
  outdated_of registry h doc = Ok outdated ->
  outdated <> [] ->
  shouldUpdate fl = true ->
  let out := checkDependencies registry fl h doc in
  written out = Some (final out, doc)
  /\ heap_object (final out) l
     = fold_left update_object (toUpdate fl outdated) (heap_object h l)
  /\ forall l', l' <> l -> final out !! l' = h !! l'.
Proof.
  intros Hc Ho Hne Hu out. subst out.
  pose proof (outdated_of_catalog _ _ _ _ Hc Ho) as Hr.
  destruct (apply_updates_ref l (toUpdate fl outdated) h) as (h' & Ha & Hobj & Hother).
  unfold checkDependencies. rewrite Hc.
  destruct (run_checks registry (catalog_entries h (FromDoc (JRef l)))) as [fo r].
  simpl in Hr. subst r.
  destruct outdated as [|d0 outdated]; [done|].
  rewrite Hu, Ha. by repeat split.
Qed.

(** The value of an outdated entry in the catalog read by the run. *)
Lemma outdated_current (h : heap) doc l outdated dep :
  unique_keys h ->
  doc_catalog h doc = Ok (FromDoc (JRef l)) ->
  outdated_of registry h doc = Ok outdated ->
  In dep outdated ->
  assoc_get (name dep) (heap_object h l) = Some (JStr (current dep)).
Proof.
  intros Hu Hc Ho Hin.
  pose proof (outdated_of_catalog _ _ _ _ Hc Ho) as Hr.
  destruct (run_checks_In registry (heap_object h l) _ _ Hr Hin) as [Hin' _].
  apply assoc_get_NoDup; [|done].
  unfold heap_object in *. destruct (h !! l) as [o|] eqn:Hl; [by eapply Hu|done].
Qed.

Lemma outdated_names_NoDup (h : heap) doc l outdated :
  unique_keys h ->
  doc_catalog h doc = Ok (FromDoc (JRef l)) ->
  outdated_of registry h doc = Ok outdated ->
  NoDup (map name outdated).
Proof.
  intros Hu Hc Ho.
  pose proof (outdated_of_catalog _ _ _ _ Hc Ho) as Hr.
  apply (run_checks_names_NoDup registry (heap_object h l)); [|exact Hr].
  unfold heap_object. destruct (h !! l) as [o|] eqn:Hl; [by eapply Hu|constructor].
Qed.

(** The value the run leaves for an entry it updates. *)
Lemma run_updated_value fl (h : heap) doc l outdated dep :
  unique_keys h ->
  doc_catalog h doc = Ok (FromDoc (JRef l)) ->
  outdated_of registry h doc = Ok outdated ->
  shouldUpdate fl = true ->
  In dep (toUpdate fl outdated) ->
  truthy (get_prop h (JRef l) (name dep)) = true ->
  get_prop (final (checkDependencies registry fl h doc)) (JRef l) (name dep)
  = JStr (new_range dep).
Proof.
  intros Huk Hc Ho Hu Hin Htr.
  assert (In dep outdated) as Hin' by (by apply toUpdate_In in Hin as [? _]).
  assert (outdated <> []) as Hne by (by destruct outdated).
  destruct (run_updates fl h doc l outdated Hc Ho Hne Hu) as (_ & Hobj & _).
  pose proof (outdated_current h doc l outdated dep Huk Hc Ho Hin') as Hget.
  unfold get_prop in *. cbn [Object_entries] in *. rewrite Hobj.
  rewrite Hget in Htr.
  erewrite fold_update_object_hit; eauto.
  apply toUpdate_names_NoDup. by eapply outdated_names_NoDup.
Qed.

(** The value the run leaves for an entry it does not select. *)
Lemma run_unselected_value fl (h : heap) doc l outdated dep :
  unique_keys h ->
  doc_catalog h doc = Ok (FromDoc (JRef l)) ->
  outdated_of registry h doc = Ok outdated ->
  In dep outdated ->
  ~ In dep (toUpdate fl outdated) ->
  get_prop (final (checkDependencies registry fl h doc)) (JRef l) (name dep)
  = get_prop h (JRef l) (name dep).
Proof.
  intros Huk Hc Ho Hin Hni.
  destruct (shouldUpdate fl) eqn:Hu.
  - assert (outdated <> []) as Hne by (by destruct outdated).
    destruct (run_updates fl h doc l outdated Hc Ho Hne Hu) as (_ & Hobj & _).
    unfold get_prop. cbn [Object_entries]. rewrite Hobj.
    rewrite fold_update_object_other; [done|].
    intros (d & Hd & Hind)%in_map_iff. apply Hni.
    assert (d = dep) as ->; [|done].
    pose proof (outdated_names_NoDup h doc l outdated Huk Hc Ho) as Hnd.
    apply toUpdate_In in Hind as [Hind _].
    clear -Hnd Hd Hin Hind. induction outdated as [|x xs IH]; [done|].
    simpl in Hnd. apply NoDup_cons in Hnd as [Hx Hnd].
    destruct Hin as [->|Hin], Hind as [->|Hind]; auto.
    + exfalso. apply Hx. rewrite <- Hd. apply list_elem_of_In. by apply in_map.
    + exfalso. apply Hx. rewrite Hd. apply list_elem_of_In. by apply in_map.
  - destruct (run_spec registry fl h doc) as [[-> _]|(? & ? & _ & _ & _ & ? & _)]; [done|congruence].
Qed.

End Updates.

(** ** The grouping and the report *)

Lemma has_type_spec dep t : has_type dep t = true <-> type dep = Some t.
Proof.
  unfold has_type. destruct (type dep) as [t'|]; [|done].
  destruct t', t; vm_compute; split; congruence.
Qed.

Lemma push_keys k dep (g : Grouped) : map fst (push k dep g) = map fst g.
Proof.
  induction g as [|[k' l] g IH]; simpl; [done|].
  destruct (String.eqb k' k); simpl; [done|]. by rewrite IH.
Qed.

Lemma bucket_push k k' dep (g : Grouped) :
  bucket k' (push k dep g) =
  if String.eqb k k'
  then match bucket k g with Some l => Some (l ++ [dep]) | None => None end
  else bucket k' g.
Proof.
  induction g as [|[k0 l] g IH]; simpl.
  - by destruct (String.eqb k k').
  - destruct (String.eqb k0 k) eqn:E; simpl.
    + apply String.eqb_eq in E. subst k0.
      by destruct (String.eqb k k') eqn:E'.
    + rewrite IH. destruct (String.eqb k k') eqn:E'; [|done].
      apply String.eqb_eq in E'. subst k'. by rewrite E.
Qed.


(** The seven buckets exist from the start and stay. *)
Lemma canonical_bucket g t : canonical g -> non_null (bucket (type_name t) g) = true.
Proof.
  unfold canonical. simpl.
  destruct g as [|[k1 l1] [|[k2 l2] [|[k3 l3] [|[k4 l4] [|[k5 l5] [|[k6 l6]
    [|[k7 l7] [|? ?]]]]]]]]; try discriminate.
  intros [= -> -> -> -> -> -> ->]. by destruct t.
Qed.

Lemma group_known_canonical g dep : canonical g -> canonical (group_known g dep).
Proof.
  unfold canonical, group_known. intros Hc.
  destruct (type dep) as [t|]; [|done].
  destruct (non_null (bucket (type_name t) g)); [|done]. by rewrite push_keys.
Qed.

Lemma group_other_canonical g dep : canonical g -> group_other g dep = g.
Proof.
  intros Hc. unfold group_other. destruct (type dep) as [t|]; [|done].
  by rewrite canonical_bucket.
Qed.

Lemma type_name_inj t t' : String.eqb (type_name t) (type_name t') = ReleaseType_eqb t t'.
Proof. reflexivity. Qed.

(** An entry lands in the bucket of its type and in no other. *)
Lemma bucket_group_known g dep t :
  canonical g ->
  bucket_of (type_name t) (group_known g dep) =
  bucket_of (type_name t) g ++ (if has_type dep t then [dep] else []).
Proof.
  intros Hc. unfold group_known, has_type, bucket_of.
  destruct (type dep) as [t'|]; [|by rewrite app_nil_r].
  rewrite (canonical_bucket g t' Hc), bucket_push, type_name_inj.
  pose proof (canonical_bucket g t' Hc) as Ht'.
  destruct (ReleaseType_eqb t' t) eqn:E.
  - assert (t' = t) as -> by (by destruct t', t).
    by destruct (bucket (type_name t) g).
  - by rewrite app_nil_r.
Qed.

Lemma bucket_fold_group_known outdated t : forall g,
  canonical g ->
  bucket_of (type_name t) (fold_left group_known outdated g) =
  bucket_of (type_name t) g ++ List.filter (fun dep => has_type dep t) outdated.
Proof.
  induction outdated as [|d outdated IH]; intros g Hc; simpl.
  - by rewrite app_nil_r.
  - rewrite IH by (by apply group_known_canonical).
    rewrite bucket_group_known by done. rewrite <- app_assoc.
    by destruct (has_type d t).
Qed.

Lemma fold_group_known_canonical outdated : forall g,
  canonical g -> canonical (fold_left group_known outdated g).
Proof.
  induction outdated as [|d outdated IH]; intros g Hc; simpl; [done|].
  apply IH. by apply group_known_canonical.
Qed.

Lemma fold_group_other_canonical outdated : forall g,
  canonical g -> fold_left group_other outdated g = g.
Proof.
  induction outdated as [|d outdated IH]; intros g Hc; simpl; [done|].
  rewrite group_other_canonical by done. by apply IH.
Qed.

(** The bucket of a release type holds the outdated entries of that type,
    in catalog order. *)
Lemma bucket_group outdated t :
  bucket_of (type_name t) (group outdated) = List.filter (fun dep => has_type dep t) outdated.
Proof.
  unfold group.
  rewrite fold_group_other_canonical by (by apply fold_group_known_canonical).
  rewrite bucket_fold_group_known by reflexivity. by destruct t.
Qed.

(** The second loop never creates [grouped.other]. *)
Lemma group_no_other outdated : bucket "other" (group outdated) = None.
Proof.
  unfold group.
  rewrite fold_group_other_canonical by (by apply fold_group_known_canonical).
  pose proof (fold_group_known_canonical outdated grouped_init eq_refl) as Hc.
  revert Hc. generalize (fold_left group_known outdated grouped_init). intros g.
  unfold canonical. simpl.
  destruct g as [|[k1 l1] [|[k2 l2] [|[k3 l3] [|[k4 l4] [|[k5 l5] [|[k6 l6]
    [|[k7 l7] [|? ?]]]]]]]]; try discriminate.
  by intros [= -> -> -> -> -> -> ->].
Qed.

(** The report, written out: the header and the three printed buckets. *)
Lemma report_spec outdated :
  report outdated =
  [(LLog, "Outdated dependencies found:")]
  ++ print_bucket major_title (List.filter (fun dep => has_type dep RtMajor) outdated)
  ++ print_bucket minor_title (List.filter (fun dep => has_type dep RtMinor) outdated)
  ++ print_bucket patch_title (List.filter (fun dep => has_type dep RtPatch) outdated).
Proof.
  pose proof (bucket_group outdated RtMajor) as Hmajor.
  pose proof (bucket_group outdated RtMinor) as Hminor.
  pose proof (bucket_group outdated RtPatch) as Hpatch.
  cbn [type_name] in *. unfold report. cbv zeta.
  by rewrite Hmajor, Hminor, Hpatch.
Qed.


(** ** Facts about the sample documents *)

Lemma unique_keys_decide (h : heap) :
  bool_decide (map_Forall (fun _ o => NoDup (keys o)) h) = true -> unique_keys h.
Proof. intros H. by apply bool_decide_eq_true_1 in H. Qed.

Lemma sample_heap_unique_keys : unique_keys sample_heap.
Proof. apply unique_keys_decide. by vm_compute. Qed.

Lemma pre_heap_unique_keys : unique_keys pre_heap.
Proof. apply unique_keys_decide. by vm_compute. Qed.

Lemma alias_heap_unique_keys : unique_keys alias_heap.
Proof. apply unique_keys_decide. by vm_compute. Qed.

Lemma sample_outdated :
  outdated_of sample_registry sample_heap (JRef 0) = Ok [sample_foo; sample_bar; sample_baz].
Proof. by vm_compute. Qed.

Lemma sample_catalog : doc_catalog sample_heap (JRef 0) = Ok (FromDoc (JRef 1)).
Proof. by vm_compute. Qed.

(** ** C3, C4: the value written for an updated entry *)

Lemma caret_append_ne s : "^" +:+ s <> s.
Proof.
  change ("^" +:+ s) with (String "^" s).
  intros H. apply (f_equal String.length) in H. simpl in H. lia.
Qed.

Lemma startsWith_caret s : startsWith ("^" +:+ s) "^" = true.
Proof. change ("^" +:+ s) with (String "^" s). reflexivity. Qed.

Lemma new_range_caret dep :
  new_range dep = "^" +:+ latest dep <-> startsWith (current dep) "^" = true.
Proof.
  unfold new_range. destruct (startsWith (current dep) "^"); split; try done.
  intros H. symmetry in H. by apply caret_append_ne in H.
Qed.

(** C3.  For every entry selected for update whose catalog value is still
    there (truthy), the run replaces the value: the written value is the
    latest version prefixed by [^] if and only if the original value
    started with [^]; when it did not (whatever other prefix it had), the
    literal latest version is written. *)
Theorem C3_update_writes_latest_keeping_caret
  {semver : SemverApi} (registry : Registry) (fl : Flags) (h : heap) (doc : jsval)
  (l : loc) (outdated : list OutdatedInfo) (dep : OutdatedInfo) :
  unique_keys h ->
  doc_catalog h doc = Ok (FromDoc (JRef l)) ->
  outdated_of registry h doc = Ok outdated ->
  shouldUpdate fl = true ->
  In dep (toUpdate fl outdated) ->
  truthy (get_prop h (JRef l) (name dep)) = true ->
  let written_value :=
    get_prop (final (checkDependencies registry fl h doc)) (JRef l) (name dep) in
  (written_value = JStr ("^" +:+ latest dep) <-> startsWith (current dep) "^" = true)
  /\ (startsWith (current dep) "^" = false -> written_value = JStr (latest dep)).
Proof.
  intros Huk Hc Ho Hu Hin Htr wv. subst wv.
  rewrite (run_updated_value registry fl h doc l outdated dep) by done.
  split.
  - rewrite <- new_range_caret. split; [by intros [= ->]|by intros ->].
  - unfold new_range. by intros ->.
Qed.

(** [^1.2.3] with latest [1.3.0] becomes [^1.3.0]. *)
Lemma C3_witness_caret :
  let written_value :=
    get_prop (final (checkDependencies sample_registry update_all sample_heap (JRef 0)))
      (JRef 1) "foo" in
  (written_value = JStr "^1.3.0" <-> startsWith "^1.2.3" "^" = true)
  /\ (startsWith "^1.2.3" "^" = false -> written_value = JStr "1.3.0").
Proof.
  apply (C3_update_writes_latest_keeping_caret sample_registry update_all sample_heap
           (JRef 0) 1 [sample_foo; sample_bar; sample_baz] sample_foo).
  - exact sample_heap_unique_keys.
  - exact sample_catalog.
  - exact sample_outdated.
  - reflexivity.
  - simpl. auto.
  - reflexivity.
Defined.

Example update_caret_example :
  get_prop (final (checkDependencies sample_registry update_all sample_heap (JRef 0)))
    (JRef 1) "foo" = JStr "^1.3.0".
Proof. by vm_compute. Qed.

Example update_plain_example :
  get_prop (final (checkDependencies sample_registry update_all sample_heap (JRef 0)))
    (JRef 1) "bar" = JStr "1.3.0".
Proof. by vm_compute. Qed.

(** C4 (as stated) fails: the entry [baz: ~2.1.0] is updated to [3.0.0];
    its [~] prefix is not kept. *)
Lemma C4_tilde_prefix_is_dropped :
  ~ (forall (registry : Registry) (fl : Flags) (h : heap) (doc : jsval) (l : loc)
       (outdated : list OutdatedInfo) (dep : OutdatedInfo),
       unique_keys h ->
       doc_catalog h doc = Ok (FromDoc (JRef l)) ->
       outdated_of registry h doc = Ok outdated ->
       shouldUpdate fl = true ->
       In dep (toUpdate fl outdated) ->
       exists s,
         get_prop (final (checkDependencies registry fl h doc)) (JRef l) (name dep) = JStr s
         /\ range_prefix s = range_prefix (current dep)).
Proof.
  intros H.
  destruct (H sample_registry update_all sample_heap (JRef 0) 1
              [sample_foo; sample_bar; sample_baz] sample_baz
              sample_heap_unique_keys sample_catalog sample_outdated eq_refl)
    as (s & Hs & Hp).
  - simpl. auto.
  - vm_compute in Hs. injection Hs as <-. vm_compute in Hp. discriminate.
Qed.

(** C4 (amended).  Of the prefix conventions only a leading [^] survives
    an update: when the original value starts with [^], so does the written
    value, which is [^] followed by the latest version; when it does not,
    the written value is the literal latest version, so any other prefix
    of the original (such as [~]) is discarded. *)
Theorem C4_only_caret_prefix_survives
  {semver : SemverApi} (registry : Registry) (fl : Flags) (h : heap) (doc : jsval)
  (l : loc) (outdated : list OutdatedInfo) (dep : OutdatedInfo) :
  unique_keys h ->
  doc_catalog h doc = Ok (FromDoc (JRef l)) ->
  outdated_of registry h doc = Ok outdated ->
  shouldUpdate fl = true ->
  In dep (toUpdate fl outdated) ->
  truthy (get_prop h (JRef l) (name dep)) = true ->
  exists s,
    get_prop (final (checkDependencies registry fl h doc)) (JRef l) (name dep) = JStr s
    /\ (startsWith (current dep) "^" = true ->
        startsWith s "^" = true /\ s = "^" +:+ latest dep)
    /\ (startsWith (current dep) "^" = false ->
        s = latest dep /\ range_prefix s = range_prefix (latest dep)).
Proof.
  intros Huk Hc Ho Hu Hin Htr. exists (new_range dep).
  split; [by apply (run_updated_value registry fl h doc l outdated dep)|].
  unfold new_range. split; intros ->; [|done].
  split; [|done]. apply startsWith_caret.
Qed.

Lemma C4_witness_tilde :
  exists s,
    get_prop (final (checkDependencies sample_registry update_all sample_heap (JRef 0)))
      (JRef 1) "baz" = JStr s
    /\ (startsWith "~2.1.0" "^" = true -> startsWith s "^" = true /\ s = "^" +:+ "3.0.0")
    /\ (startsWith "~2.1.0" "^" = false -> s = "3.0.0" /\ range_prefix s = range_prefix "3.0.0").
Proof.
  apply (C4_only_caret_prefix_survives sample_registry update_all sample_heap
           (JRef 0) 1 [sample_foo; sample_bar; sample_baz] sample_baz).
  - exact sample_heap_unique_keys.
  - exact sample_catalog.
  - exact sample_outdated.
  - reflexivity.
  - simpl. auto.
  - reflexivity.
Defined.

(** ** C6: the release-type filters *)

Lemma selected_spec fl dep :
  selected fl dep = true <->
  (updatePatch fl = true /\ type dep = Some RtPatch)
  \/ (updateMinor fl = true /\ type dep = Some RtMinor)
  \/ (updateMajor fl = true /\ type dep = Some RtMajor).
Proof.
  unfold selected. rewrite !orb_true_iff, !andb_true_iff, !has_type_spec. tauto.
Qed.

(** C6.  With no filter every outdated entry is selected.  With one or
    more of [--patch], [--minor], [--major], an outdated entry is selected
    exactly when its type is the name of a requested filter; an entry that
    is not selected keeps its catalog value through the run.  Hence with
    only [--minor] the [major] and [patch] entries are unchanged, and
    [premajor], [preminor], [prepatch] and [prerelease] entries are not
    updated under any filter. *)
Theorem C6_filters_select_exact_types
  {semver : SemverApi} (registry : Registry) (fl : Flags) (h : heap) (doc : jsval)
  (l : loc) (outdated : list OutdatedInfo) :
  unique_keys h ->
  doc_catalog h doc = Ok (FromDoc (JRef l)) ->
  outdated_of registry h doc = Ok outdated ->
  let unchanged dep :=
    get_prop (final (checkDependencies registry fl h doc)) (JRef l) (name dep)
    = get_prop h (JRef l) (name dep) in
  (any_filter fl = false -> toUpdate fl outdated = outdated)
  /\ (any_filter fl = true ->
      forall dep,
        In dep (toUpdate fl outdated) <->
        In dep outdated
        /\ ((updatePatch fl = true /\ type dep = Some RtPatch)
            \/ (updateMinor fl = true /\ type dep = Some RtMinor)
            \/ (updateMajor fl = true /\ type dep = Some RtMajor)))
  /\ (forall dep, In dep outdated -> ~ In dep (toUpdate fl outdated) -> unchanged dep)
  /\ (updateMinor fl = true -> updatePatch fl = false -> updateMajor fl = false ->
      forall dep, In dep outdated ->
        type dep = Some RtMajor \/ type dep = Some RtPatch -> unchanged dep)
  /\ (any_filter fl = true ->
      forall dep, In dep outdated ->
        type dep = Some RtPremajor \/ type dep = Some RtPreminor
        \/ type dep = Some RtPrepatch \/ type dep = Some RtPrerelease ->
        unchanged dep).
Proof.
  intros Huk Hc Ho unchanged.
  assert (forall dep, In dep outdated -> ~ In dep (toUpdate fl outdated) -> unchanged dep)
    as Hkeep.
  { intros dep Hin Hni. by apply (run_unselected_value registry fl h doc l outdated dep). }
  split; [|split; [|split; [done|split]]].
  - unfold toUpdate, any_filter. by intros ->.
  - intros Hany dep. rewrite toUpdate_In, <- selected_spec. rewrite Hany.
    split; intros [? ?]; split; auto. by destruct H0.
  - intros Hminor Hpatch Hmajor dep Hin Hty. apply Hkeep; [done|].
    rewrite toUpdate_In. unfold any_filter. rewrite Hminor, Hpatch, Hmajor. simpl.
    intros [_ [?|Hsel]]; [done|]. apply selected_spec in Hsel.
    rewrite Hpatch, Hmajor in Hsel.
    destruct Hty as [Hty|Hty]; rewrite Hty in Hsel;
      destruct Hsel as [[? ?]|[[? ?]|[? ?]]]; congruence.
  - intros Hany dep Hin Hty. apply Hkeep; [done|].
    rewrite toUpdate_In, Hany.
    intros [_ [?|Hsel]]; [done|]. apply selected_spec in Hsel.
    destruct Hty as [Hty|[Hty|[Hty|Hty]]]; rewrite Hty in Hsel;
      destruct Hsel as [[? ?]|[[? ?]|[? ?]]]; congruence.
Qed.

(** With only [--minor], [foo] and [bar] (minor) are selected and [baz]
    (major) keeps [~2.1.0]. *)
Lemma C6_witness_minor_only :
  let fl := update_minor_only in
  let outdated := [sample_foo; sample_bar; sample_baz] in
  let unchanged dep :=
    get_prop (final (checkDependencies sample_registry fl sample_heap (JRef 0)))
      (JRef 1) (name dep)
    = get_prop sample_heap (JRef 1) (name dep) in
  (any_filter fl = false -> toUpdate fl outdated = outdated)
  /\ (any_filter fl = true ->
      forall dep,
        In dep (toUpdate fl outdated) <->
        In dep outdated
        /\ ((updatePatch fl = true /\ type dep = Some RtPatch)
            \/ (updateMinor fl = true /\ type dep = Some RtMinor)
            \/ (updateMajor fl = true /\ type dep = Some RtMajor)))
  /\ (forall dep, In dep outdated -> ~ In dep (toUpdate fl outdated) -> unchanged dep)
  /\ (updateMinor fl = true -> updatePatch fl = false -> updateMajor fl = false ->
      forall dep, In dep outdated ->
        type dep = Some RtMajor \/ type dep = Some RtPatch -> unchanged dep)
  /\ (any_filter fl = true ->
      forall dep, In dep outdated ->
        type dep = Some RtPremajor \/ type dep = Some RtPreminor
        \/ type dep = Some RtPrepatch \/ type dep = Some RtPrerelease ->
        unchanged dep).
Proof.
  apply (C6_filters_select_exact_types sample_registry update_minor_only sample_heap
           (JRef 0) 1 [sample_foo; sample_bar; sample_baz]).
  - exact sample_heap_unique_keys.
  - exact sample_catalog.
  - exact sample_outdated.
Defined.

Example minor_only_example :
  heap_object (final (checkDependencies sample_registry update_minor_only sample_heap (JRef 0))) 1
  = [("foo", JStr "^1.3.0"); ("bar", JStr "1.3.0"); ("baz", JStr "~2.1.0"); ("qux", JStr "3.0.0")].
Proof. by vm_compute. Qed.

(** ** C10, C1: what the report shows and what the update writes *)

Lemma filter_filter_implied {A : Type} (p q : A -> bool) (l : list A) :
  (forall x, p x = true -> q x = true) ->
  List.filter p (List.filter q l) = List.filter p l.
Proof.
  intros Himp. induction l as [|x l IH]; simpl; [done|].
  destruct (q x) eqn:Hq; simpl.
  - by rewrite IH.
  - destruct (p x) eqn:Hp; [|done]. apply Himp in Hp. congruence.
Qed.

(** The report is the report of the major, minor and patch entries. *)
Lemma report_shown outdated : report outdated = report (List.filter shown outdated).
Proof.
  rewrite !report_spec. unfold shown.
  rewrite !filter_filter_implied; [done|..]; intros x ->; by rewrite ?orb_true_r.
Qed.

Section Console.

Context {semver : SemverApi}.
Variable registry : Registry.

Lemma run_console fl (h : heap) doc l outdated :
  doc_catalog h doc = Ok (FromDoc (JRef l)) ->
  outdated_of registry h doc = Ok outdated ->
  outdated <> [] ->
  console (checkDependencies registry fl h doc) =
  found_line (heap_object h l) :: fst (run_checks registry (heap_object h l))
  ++ report outdated
  ++ (if shouldUpdate fl then [update_notice; updated_notice] else []).
Proof.
  intros Hc Ho Hne.
  pose proof (outdated_of_catalog registry _ _ _ _ Hc Ho) as Hr.
  destruct (apply_updates_ref l (toUpdate fl outdated) h) as (h' & Ha & _).
  unfold checkDependencies. rewrite Hc. cbn [catalog_entries Object_entries] in *.
  destruct (run_checks registry (heap_object h l)) as [fo r].
  simpl in Hr. subst r.
  destruct outdated as [|d0 outdated]; [done|].
  destruct (shouldUpdate fl).
  - rewrite Ha. cbn [console fst]. rewrite <- !app_assoc. reflexivity.
  - cbn [console fst]. by rewrite app_nil_r.
Qed.

End Console.

(** C10.  Under [--update] with none of [--major], [--minor], [--patch],
    every outdated entry is selected and written to the manifest, whatever
    its type, [premajor], [preminor], [prepatch] and [prerelease] included:
    its value becomes the latest version, after a [^] when the old value
    began with one;
    the console, however, carries the report of the major, minor and patch
    entries only: entries of the four other types are among those written
    and are not among those reported. *)
Theorem C10_unfiltered_update_writes_unreported_entries
  {semver : SemverApi} (registry : Registry) (fl : Flags) (h : heap) (doc : jsval)
  (l : loc) (outdated : list OutdatedInfo) :
  unique_keys h ->
  doc_catalog h doc = Ok (FromDoc (JRef l)) ->
  outdated_of registry h doc = Ok outdated ->
  outdated <> [] ->
  shouldUpdate fl = true ->
  any_filter fl = false ->
  let out := checkDependencies registry fl h doc in
  toUpdate fl outdated = outdated
  /\ written out = Some (final out, doc)
  /\ (forall dep, In dep outdated ->
        truthy (get_prop h (JRef l) (name dep)) = true ->
        get_prop (final out) (JRef l) (name dep)
        = JStr (if startsWith (current dep) "^" then "^" +:+ latest dep else latest dep))
  /\ console out =
     found_line (heap_object h l) :: fst (run_checks registry (heap_object h l))
     ++ report (List.filter shown outdated) ++ [update_notice; updated_notice]
  /\ (forall dep, In dep outdated ->
        type dep = Some RtPremajor \/ type dep = Some RtPreminor
        \/ type dep = Some RtPrepatch \/ type dep = Some RtPrerelease ->
        In dep (toUpdate fl outdated) /\ ~ In dep (List.filter shown outdated)).
Proof.
  intros Huk Hc Ho Hne Hu Hany out. subst out.
  assert (toUpdate fl outdated = outdated) as Hall.
  { unfold toUpdate. unfold any_filter in Hany. by rewrite Hany. }
  destruct (run_updates registry fl h doc l outdated Hc Ho Hne Hu) as (Hw & _ & _).
  split; [done|]. split; [done|]. split; [|split].
  - intros dep Hin Htr.
    apply (run_updated_value registry fl h doc l outdated dep); try done.
    by rewrite Hall.
  - rewrite (run_console registry fl h doc l outdated Hc Ho Hne), Hu.
    by rewrite <- report_shown.
  - intros dep Hin Hty. rewrite Hall. split; [done|].
    rewrite filter_In. intros [_ Hs]. unfold shown in Hs.
    rewrite !orb_true_iff, !has_type_spec in Hs.
    destruct Hty as [Hty|[Hty|[Hty|Hty]]]; rewrite Hty in Hs;
      destruct Hs as [[?|?]|?]; congruence.
Qed.

Lemma pre_outdated : outdated_of pre_registry pre_heap (JRef 0) = Ok [pre_next].
Proof. by vm_compute. Qed.

Lemma pre_catalog : doc_catalog pre_heap (JRef 0) = Ok (FromDoc (JRef 1)).
Proof. by vm_compute. Qed.

(** [next: 1.0.0] with latest [2.0.0-beta.1] is a premajor entry: it is
    written, and the report has no bucket to print. *)
Lemma C10_witness_premajor :
  let out := checkDependencies pre_registry update_all pre_heap (JRef 0) in
  toUpdate update_all [pre_next] = [pre_next]
  /\ written out = Some (final out, JRef 0)
  /\ (forall dep, In dep [pre_next] ->
        truthy (get_prop pre_heap (JRef 1) (name dep)) = true ->
        get_prop (final out) (JRef 1) (name dep)
        = JStr (if startsWith (current dep) "^" then "^" +:+ latest dep else latest dep))
  /\ console out =
     found_line (heap_object pre_heap 1) :: fst (run_checks pre_registry (heap_object pre_heap 1))
     ++ report (List.filter shown [pre_next]) ++ [update_notice; updated_notice]
  /\ (forall dep, In dep [pre_next] ->
        type dep = Some RtPremajor \/ type dep = Some RtPreminor
        \/ type dep = Some RtPrepatch \/ type dep = Some RtPrerelease ->
        In dep (toUpdate update_all [pre_next]) /\ ~ In dep (List.filter shown [pre_next])).
Proof.
  apply (C10_unfiltered_update_writes_unreported_entries pre_registry update_all pre_heap
           (JRef 0) 1 [pre_next]).
  - exact pre_heap_unique_keys.
  - exact pre_catalog.
  - exact pre_outdated.
  - discriminate.
  - reflexivity.
  - reflexivity.
Defined.

Example premajor_written_unreported :
  let out := checkDependencies pre_registry update_all pre_heap (JRef 0) in
  heap_object (final out) 1 = [("left-pad", JStr "^1.0.0"); ("next", JStr "2.0.0-beta.1")]
  /\ console out =
     [(LLog, "Found 2 dependencies in catalog. Fetching latest versions in parallel...");
      (LLog, "Outdated dependencies found:");
      update_notice; updated_notice].
Proof. by vm_compute. Qed.

(** C1 at a failing input.  The catalog [{left-pad: ^1.0.0, next: 1.0.0}]
    with [2.0.0-beta.1] published as latest of [next]: the outdated set is
    the single premajor entry [next], it is grouped into the [premajor]
    bucket, and the console ends after the header: no line for [next] is
    printed, although the claim has every outdated entry in the report. *)
Theorem C1_premajor_entry_missing_from_report :
  let out := checkDependencies pre_registry all_flags_off pre_heap (JRef 0) in
  outdated_of pre_registry pre_heap (JRef 0) = Ok [pre_next]
  /\ bucket "premajor" (group [pre_next]) = Some [pre_next]
  /\ bucket "other" (group [pre_next]) = None
  /\ console out =
     [(LLog, "Found 2 dependencies in catalog. Fetching latest versions in parallel...");
      (LLog, "Outdated dependencies found:")]
  /\ ~ In (entry_line pre_next) (console out).
Proof.
  vm_compute. repeat split; try reflexivity.
  intros [H|[H|[]]]; discriminate.
Qed.

(** ** C7: a failed lookup stays local *)

Section Lookups.

Context {semver : SemverApi}.

Lemma getLatestVersion_failed (registry : Registry) nm :
  lookup_failed (registry nm) = true ->
  exists l, getLatestVersion registry nm = ([l], None) /\ is_diagnostic l = true.
Proof.
  unfold getLatestVersion. destruct (registry nm); try discriminate; intros _; by eexists.
Qed.

(** With its lookup failed, an entry is excluded; its check throws only
    where it throws before any lookup. *)
Lemma check_entry_failed_lookup (registry : Registry) nm v :
  lookup_failed (registry nm) = true ->
  snd (check_entry registry (nm, v)) = (let* _ := cleanVersion v in Ok None).
Proof.
  intros Hf. destruct (getLatestVersion_failed registry nm Hf) as (l & Hl & _).
  unfold check_entry.
  destruct v as [| | | |s|]; try reflexivity. cbn [cleanVersion bind].
  destruct (non_null (prerelease s) || negb (truthy_str (valid (strip_non_digit_dot s))));
    [done|].
  by rewrite Hl.
Qed.

(** The check of an entry consults the registry at the entry's own name
    only. *)
Lemma check_entry_registry_ext (registry registry' : Registry) n v :
  registry' n = registry n ->
  check_entry registry' (n, v) = check_entry registry (n, v).
Proof.
  intros Heq. unfold check_entry, getLatestVersion. by rewrite Heq.
Qed.

Lemma run_checks_failed_lookup (registry registry' : Registry) nm :
  lookup_failed (registry nm) = true ->
  (forall n, n <> nm -> registry' n = registry n) ->
  forall es outdated',
    snd (run_checks registry' es) = Ok outdated' ->
    snd (run_checks registry es)
    = Ok (List.filter (fun d => negb (String.eqb (name d) nm)) outdated').
Proof.
  intros Hf Hsame. induction es as [|[n v] es IH]; intros outdated'.
  - rewrite !run_checks_nil. by intros [= <-].
  - intros (r' & l' & Hc' & Hr' & ->)%run_checks_Ok_cons.
    apply run_checks_Ok_cons. specialize (IH l' Hr').
    destruct (String.eqb n nm) eqn:E.
    + apply String.eqb_eq in E. subst n.
      exists None, (List.filter (fun d => negb (String.eqb (name d) nm)) l').
      split; [|split; [done|]].
      * rewrite (check_entry_failed_lookup registry nm v Hf).
        destruct (cleanVersion v) as [c|ex] eqn:Hcv; [done|].
        unfold check_entry in Hc'. rewrite Hcv in Hc'. discriminate.
      * destruct r' as [d|]; [|done].
        destruct (check_entry_some registry' _ _ _ Hc') as (Hn & _).
        simpl. by rewrite Hn, String.eqb_refl.
    + apply String.eqb_neq in E.
      exists r', (List.filter (fun d => negb (String.eqb (name d) nm)) l').
      split; [|split; [done|]].
      * by rewrite <- (check_entry_registry_ext registry registry' n v (Hsame n E)).
      * destruct r' as [d|]; [|done].
        destruct (check_entry_some registry' _ _ _ Hc') as (Hn & _).
        simpl. rewrite Hn. apply String.eqb_neq in E. by rewrite E.
Qed.

End Lookups.

(** C7 (as stated) fails: not every failed lookup is logged as a warning.
    With the fetch of [bar] rejected, the failure is caught and yields
    [null], but the one line it logs is written with [console.error]
    (line 85). *)
Lemma C7_rejected_fetch_is_logged_as_error :
  ~ (forall (registry registry' : Registry) (nm : string),
       lookup_failed (registry nm) = true ->
       (forall n, n <> nm -> registry' n = registry n) ->
       (exists text, getLatestVersion registry nm = ([(LWarn, text)], None))
       /\ (forall v, snd (check_entry registry (nm, v)) = (let* _ := cleanVersion v in Ok None))
       /\ (forall n v, n <> nm -> check_entry registry (n, v) = check_entry registry' (n, v))
       /\ (forall (h : heap) doc outdated',
             outdated_of registry' h doc = Ok outdated' ->
             outdated_of registry h doc
             = Ok (List.filter (fun d => negb (String.eqb (name d) nm)) outdated'))).
Proof.
  intros H.
  destruct (H sample_registry_bar_down sample_registry "bar" eq_refl) as [(text & Ht) _].
  - intros n Hne. unfold sample_registry_bar_down.
    apply String.eqb_neq in Hne. by rewrite Hne.
  - vm_compute in Ht. discriminate.
Qed.

Example rejected_fetch_example :
  getLatestVersion sample_registry_bar_down "bar"
  = ([(LError, "Error fetching version for bar: ConnectionRefused")], None).
Proof. reflexivity. Qed.

(** C7, amended.  Let the lookup of [nm] fail.  Then [getLatestVersion]
    catches it, logs one line and returns [null]: a non-success response is
    logged with [console.warn] as "Failed to fetch version for [nm]:" and
    the status text; a rejected fetch or an undecodable body is logged with
    [console.error] as "Error fetching version for [nm]:" and the error.
    The entry of [nm] is excluded from the outdated set; every other entry
    is checked exactly as under any registry that differs at [nm] only; and
    the run is not aborted: whenever the run with the lookup succeeding
    computes an outdated set, the run with the lookup failed computes the
    same set without the entry of [nm]. *)
Theorem C7_failed_lookup_is_logged_and_contained
  {semver : SemverApi} (registry registry' : Registry) (nm : string) :
  lookup_failed (registry nm) = true ->
  (forall n, n <> nm -> registry' n = registry n) ->
  ((exists statusText,
       registry nm = NotOk statusText
       /\ getLatestVersion registry nm
          = ([(LWarn, "Failed to fetch version for " +:+ nm +:+ ": " +:+ statusText)], None))
   \/ (exists err,
         (registry nm = FetchRejected err \/ registry nm = BadBody err)
         /\ getLatestVersion registry nm
            = ([(LError, "Error fetching version for " +:+ nm +:+ ": " +:+ err)], None)))
  /\ (forall v, snd (check_entry registry (nm, v)) = (let* _ := cleanVersion v in Ok None))
  /\ (forall n v, n <> nm -> check_entry registry (n, v) = check_entry registry' (n, v))
  /\ (forall (h : heap) doc outdated',
        outdated_of registry' h doc = Ok outdated' ->
        outdated_of registry h doc
        = Ok (List.filter (fun d => negb (String.eqb (name d) nm)) outdated')).
Proof.
  intros Hf Hsame. split.
  { unfold getLatestVersion. destruct (registry nm) as [err|st|err|l]; try discriminate.
    - right. exists err. split; [by left|done].
    - left. by exists st.
    - right. exists err. split; [by right|done]. }
  split; [intros v; by apply check_entry_failed_lookup|].
  split.
  - intros n v Hne. symmetry. apply check_entry_registry_ext. by apply Hsame.
  - intros h doc outdated'. unfold outdated_of.
    destruct (doc_catalog h doc) as [c|]; cbn [bind]; [|discriminate].
    by apply run_checks_failed_lookup.
Qed.

(** The registry answers [Not Found] for [qux]; under a registry that knows
    [qux] the other entries are checked alike. *)
Lemma C7_witness_qux_not_found :
  ((exists statusText,
       sample_registry "qux" = NotOk statusText
       /\ getLatestVersion sample_registry "qux"
          = ([(LWarn, "Failed to fetch version for " +:+ "qux" +:+ ": " +:+ statusText)], None))
   \/ (exists err,
         (sample_registry "qux" = FetchRejected err \/ sample_registry "qux" = BadBody err)
         /\ getLatestVersion sample_registry "qux"
            = ([(LError, "Error fetching version for " +:+ "qux" +:+ ": " +:+ err)], None)))
  /\ (forall v, snd (check_entry sample_registry ("qux", v))
                = (let* _ := cleanVersion v in Ok None))
  /\ (forall n v, n <> "qux" ->
        check_entry sample_registry (n, v) = check_entry qux_registry (n, v))
  /\ (forall (h : heap) doc outdated',
        outdated_of qux_registry h doc = Ok outdated' ->
        outdated_of sample_registry h doc
        = Ok (List.filter (fun d => negb (String.eqb (name d) "qux")) outdated')).
Proof.
  apply (C7_failed_lookup_is_logged_and_contained sample_registry qux_registry "qux").
  - reflexivity.
  - intros n Hne. unfold qux_registry.
    apply String.eqb_neq in Hne. by rewrite Hne.
Defined.

Example qux_found_example :
  outdated_of qux_registry sample_heap (JRef 0)
  = Ok [sample_foo; sample_bar; sample_baz;
        {| name := "qux"; current := "3.0.0"; latest := "3.0.1"; type := Some RtPatch |}]
  /\ outdated_of sample_registry sample_heap (JRef 0) = Ok [sample_foo; sample_bar; sample_baz].
Proof. by vm_compute. Qed.

Example bar_down_example :
  let out := checkDependencies sample_registry_bar_down all_flags_off sample_heap (JRef 0) in
  outdated_of sample_registry_bar_down sample_heap (JRef 0) = Ok [sample_foo; sample_baz]
  /\ In (LError, "Error fetching version for bar: ConnectionRefused") (console out)
  /\ In (entry_line sample_foo) (console out)
  /\ In (entry_line sample_baz) (console out).
Proof. vm_compute. repeat split; auto 20. Qed.

(** ** C5: which entries are excluded *)

Section Exclusion.

Context {semver : SemverApi}.
Variable registry : Registry.

(** For a string value, whether and how the entry is excluded. *)
Lemma check_entry_string nm v :
  snd (check_entry registry (nm, JStr v)) =
  if non_null (prerelease v) || negb (truthy_str (valid (strip_non_digit_dot v)))
  then Ok None
  else match snd (getLatestVersion registry nm) with
       | None => Ok None
       | Some l =>
           if String.eqb l "" then Ok None
           else
             let* newer := gt l (strip_non_digit_dot v) in
             if newer : bool then
               let* t := diff (strip_non_digit_dot v) l in
               Ok (Some {| name := nm; current := v; latest := l; type := t |})
             else Ok None
       end.
Proof.
  unfold check_entry. cbn [cleanVersion].
  destruct (non_null (prerelease v) || negb (truthy_str (valid (strip_non_digit_dot v))));
    [done|].
  destruct (getLatestVersion registry nm) as [out [l|]]; cbn [snd truthy_str]; [|done].
  destruct (String.eqb l ""); cbn [negb]; [done|].
  destruct (gt l (strip_non_digit_dot v)) as [[|]|]; cbn [bind]; try done.
  by destruct (diff (strip_non_digit_dot v) l).
Qed.

Lemma check_entry_null nm : snd (check_entry registry (nm, JNull)) = Ok None.
Proof. reflexivity. Qed.

Lemma check_entry_not_string nm v :
  match v with JStr _ | JNull | JUndefined => False | _ => True end ->
  snd (check_entry registry (nm, v)) = Throw (TypeError "version.replace is not a function").
Proof. by destruct v. Qed.

End Exclusion.

(** C5 at a failing input.  In the catalog [{foo: 1, bar: 1.0.0}] the value
    of [foo] is a number, not a string.  The claim has the entry excluded;
    the callback throws at [version.replace] before it reaches the
    [typeof version !== 'string'] guard, [Promise.all] rejects, and the run
    ends in the [catch] with no outdated set at all: [bar], outdated
    against [1.3.0], is not reported. *)
Theorem C5_number_value_aborts_the_run :
  let out := checkDependencies sample_registry update_all number_heap (JRef 0) in
  snd (check_entry sample_registry ("foo", JNum 1))
  = Throw (TypeError "version.replace is not a function")
  /\ snd (check_entry sample_registry ("bar", JStr "1.0.0"))
     = Ok (Some {| name := "bar"; current := "1.0.0"; latest := "1.3.0";
                   type := Some RtMinor |})
  /\ outdated_of sample_registry number_heap (JRef 0)
     = Throw (TypeError "version.replace is not a function")
  /\ console out =
     [(LLog, "Found 2 dependencies in catalog. Fetching latest versions in parallel...");
      (LError, "Error checking dependencies: version.replace is not a function")]
  /\ written out = None.
Proof. by vm_compute. Qed.

(** ** C8: what the rewrite preserves *)

Lemma get_prop_agree (h h' : heap) v k :
  (forall r, v = JRef r -> h' !! r = h !! r) ->
  get_prop h' v k = get_prop h v k.
Proof.
  intros Hagree. destruct v as [| | | | |r]; try reflexivity.
  unfold get_prop. cbn [Object_entries].
  by rewrite (heap_object_agree h h' r (Hagree r eq_refl)).
Qed.

(** Data that does not meet the object at [l] reads the same in two heaps
    that agree everywhere else. *)
Lemma reify_agree (h h' : heap) l :
  (forall l', l' <> l -> h' !! l' = h !! l') ->
  forall n v, reaches n h v l = false -> reify n h' v = reify n h v.
Proof.
  intros Hagree. induction n as [|n IH]; intros v Hr;
    destruct v as [| | | | |l']; try reflexivity.
  cbn [reaches] in Hr. apply orb_false_iff in Hr as [Hne Hsub].
  apply Nat.eqb_neq in Hne. cbn [reify].
  rewrite (heap_object_agree h h' l' (Hagree l' Hne)).
  f_equal. apply map_ext_in. intros [k x] Hin. cbn [fst snd]. f_equal.
  apply IH. destruct (reaches n h x l) eqn:E; [|done].
  assert (existsb (fun kv => reaches n h (snd kv) l) (heap_object h l') = true) as Hex.
  { apply existsb_exists. by exists (k, x). }
  congruence.
Qed.

(** C8 (as stated) fails: in [{catalog: &c {foo: ^1.0.0}, overrides: *c}]
    the field [overrides] is the catalog object itself, and the update of
    [foo] shows in it. *)
Lemma C8_aliased_field_changes :
  ~ (forall (registry : Registry) (fl : Flags) (h : heap) (doc : jsval)
       (h' : heap) (doc' : jsval) (k : string) (n : nat),
       written (checkDependencies registry fl h doc) = Some (h', doc') ->
       k <> "catalog" ->
       reify n h' (get_prop h' doc' k) = reify n h (get_prop h doc k)).
Proof.
  intros H.
  specialize (H alias_registry update_all alias_heap (JRef 0)
                (final (checkDependencies alias_registry update_all alias_heap (JRef 0)))
                (JRef 0) "overrides" 1%nat eq_refl).
  assert ("overrides" <> "catalog") as Hk by discriminate.
  specialize (H Hk). vm_compute in H. discriminate.
Qed.

(** C8 (amended).  A run that writes hands the whole document (its root)
    to the serializer, and the heap it serializes differs from the input at
    the catalog mapping only: every other object is untouched.  So every
    field of the document other than the catalog holds the same value as
    before, and the same data at any depth unless the catalog mapping
    itself is met inside it (a YAML alias of the catalog). *)
Theorem C8_only_the_catalog_object_changes
  {semver : SemverApi} (registry : Registry) (fl : Flags) (h : heap) (doc : jsval)
  (h' : heap) (doc' : jsval) :
  written (checkDependencies registry fl h doc) = Some (h', doc') ->
  doc' = doc
  /\ exists c,
      doc_catalog h doc = Ok c
      /\ (forall l, catalog_loc c <> Some l -> h' !! l = h !! l)
      /\ (forall k, k <> "catalog" ->
            get_prop h' doc' k = get_prop h doc k
            /\ forall n,
                (forall l, catalog_loc c = Some l -> reaches n h (get_prop h doc k) l = false) ->
                reify n h' (get_prop h' doc' k) = reify n h (get_prop h doc k)).
Proof.
  intros Hw.
  destruct (run_spec registry fl h doc)
    as [[_ Hnone]|(c & outdated & Hc & Hr & _ & _ & Hw' & Hfin)]; [congruence|].
  rewrite Hw in Hw'. injection Hw' as -> ->. split; [done|].
  exists c. split; [done|].
  destruct (catalog_loc c) as [lc|] eqn:Hl.
  - destruct Hfin as [_ Hother].
    pose proof (catalog_loc_Some _ _ Hl) as ->.
    split; [intros l Hne; apply Hother; congruence|].
    intros k Hk.
    assert (get_prop (final (checkDependencies registry fl h doc)) doc k = get_prop h doc k)
      as Hsame.
    { apply get_prop_agree. intros r ->. apply Hother.
      by apply (catalog_not_root registry h r lc outdated). }
    split; [done|]. intros n Hreach. rewrite Hsame.
    apply (reify_agree h _ lc Hother). by apply Hreach.
  - rewrite Hfin. by repeat split.
Qed.

(** In the sample document the field [packages] does not meet the catalog
    mapping, and is written as it was read. *)
Lemma C8_witness_sample :
  let h' := final (checkDependencies sample_registry update_all sample_heap (JRef 0)) in
  JRef 0 = JRef 0
  /\ exists c,
      doc_catalog sample_heap (JRef 0) = Ok c
      /\ (forall l, catalog_loc c <> Some l -> h' !! l = sample_heap !! l)
      /\ (forall k, k <> "catalog" ->
            get_prop h' (JRef 0) k = get_prop sample_heap (JRef 0) k
            /\ forall n,
                (forall l, catalog_loc c = Some l ->
                           reaches n sample_heap (get_prop sample_heap (JRef 0) k) l = false) ->
                reify n h' (get_prop h' (JRef 0) k)
                = reify n sample_heap (get_prop sample_heap (JRef 0) k)).
Proof.
  apply (C8_only_the_catalog_object_changes sample_registry update_all sample_heap (JRef 0)).
  reflexivity.
Defined.

Example packages_preserved_example :
  let h' := final (checkDependencies sample_registry update_all sample_heap (JRef 0)) in
  reaches 5 sample_heap (get_prop sample_heap (JRef 0) "packages") 1 = false
  /\ reify 5 h' (get_prop h' (JRef 0) "packages") = DObj [("0", DStr "apps/*")]
  /\ reify 5 h' (get_prop h' (JRef 0) "catalog")
     = DObj [("foo", DStr "^1.3.0"); ("bar", DStr "1.3.0");
             ("baz", DStr "3.0.0"); ("qux", DStr "3.0.0")].
Proof. by vm_compute. Qed.

Example alias_changes_example :
  let h' := final (checkDependencies alias_registry update_all alias_heap (JRef 0)) in
  reify 1 alias_heap (get_prop alias_heap (JRef 0) "overrides") = DObj [("foo", DStr "^1.0.0")]
  /\ reify 1 h' (get_prop h' (JRef 0) "overrides") = DObj [("foo", DStr "^2.0.0")].
Proof. by vm_compute. Qed.

(** ** The semver model on stripped versions *)

Module SemverFacts.

Import SemverModel.

Lemma strip_list s :
  list_ascii_of_string (strip_non_digit_dot s) = List.filter kept (list_ascii_of_string s).
Proof.
  induction s as [|c s IH]; simpl; [done|].
  unfold kept at 1. destruct (is_digit c || is_dot c); simpl; by rewrite IH.
Qed.

Lemma space_not_kept c : is_space c = true -> kept c = false.
Proof. ascii_cases c; vm_compute; congruence. Qed.

Lemma kept_not_space c : kept c = true -> is_space c = false.
Proof. ascii_cases c; vm_compute; congruence. Qed.

Lemma kept_not_special c :
  kept c = true ->
  Ascii.eqb c "v" = false /\ Ascii.eqb c "+" = false /\ Ascii.eqb c "-" = false.
Proof. ascii_cases c; vm_compute; intros; repeat split; congruence. Qed.

Lemma digit_kept c : is_digit c = true -> kept c = true.
Proof. unfold kept. by intros ->. Qed.

Lemma digit_not_dot c : is_digit c = true -> Ascii.eqb c "." = false.
Proof. ascii_cases c; vm_compute; congruence. Qed.

Lemma filter_kept_drop_spaces cs :
  List.filter kept (drop_spaces cs) = List.filter kept cs.
Proof.
  induction cs as [|c cs IH]; simpl; [done|].
  destruct (is_space c) eqn:E; [|done].
  by rewrite IH, (space_not_kept c E).
Qed.

Lemma filter_kept_trim cs : List.filter kept (trim cs) = List.filter kept cs.
Proof.
  unfold trim.
  by rewrite filter_rev, filter_kept_drop_spaces, filter_rev, rev_involutive,
    filter_kept_drop_spaces.
Qed.

Lemma drop_spaces_kept cs : forallb kept cs = true -> drop_spaces cs = cs.
Proof.
  destruct cs as [|c cs]; simpl; [done|].
  intros [Hc _]%andb_true_iff. by rewrite (kept_not_space c Hc).
Qed.

Lemma forallb_rev {A : Type} (f : A -> bool) (l : list A) :
  forallb f (rev l) = forallb f l.
Proof.
  induction l as [|x l IH]; simpl; [done|].
  rewrite forallb_app, IH. simpl. rewrite andb_true_r. apply andb_comm.
Qed.

Lemma trim_kept cs : forallb kept cs = true -> trim cs = cs.
Proof.
  intros H. unfold trim. rewrite (drop_spaces_kept cs H).
  rewrite drop_spaces_kept by (by rewrite forallb_rev).
  apply rev_involutive.
Qed.

Lemma break_at_spec c cs a b :
  break_at c cs = (a, b) ->
  cs = a ++ match b with Some r => c :: r | None => [] end.
Proof.
  revert a b. induction cs as [|x cs IH]; simpl; intros a b.
  - by intros [= <- <-].
  - destruct (Ascii.eqb x c) eqn:E.
    + apply Ascii.eqb_eq in E. subst x. by intros [= <- <-].
    + destruct (break_at c cs) as [a' b'] eqn:Hb. intros [= <- <-].
      simpl. f_equal. by apply IH.
Qed.

Lemma break_at_absent c cs :
  forallb (fun x => negb (Ascii.eqb x c)) cs = true -> break_at c cs = (cs, None).
Proof.
  induction cs as [|x cs IH]; simpl; [done|].
  intros [Hx Hcs]%andb_true_iff. apply negb_true_iff in Hx. rewrite Hx.
  by rewrite (IH Hcs).
Qed.

(** *** Splitting at dots *)

Lemma split_on_nonempty c cs : split_on c cs <> [].
Proof.
  destruct cs as [|x cs]; simpl; [done|].
  destruct (Ascii.eqb x c); [done|]. by destruct (split_on c cs).
Qed.

Lemma app_last_cons_head x p ps qs :
  qs <> [] ->
  app_last ((x :: p) :: ps) qs =
  match app_last (p :: ps) qs with
  | [] => [[x]]
  | p' :: ps' => (x :: p') :: ps'
  end.
Proof.
  intros Hq. destruct ps as [|p2 ps]; simpl; [|done].
  by destruct qs.
Qed.

Lemma split_on_app c l r :
  split_on c (l ++ r) = app_last (split_on c l) (split_on c r).
Proof.
  induction l as [|x l IH]; simpl.
  - pose proof (split_on_nonempty c r). by destruct (split_on c r).
  - destruct (Ascii.eqb x c).
    + rewrite IH. pose proof (split_on_nonempty c l).
      by destruct (split_on c l).
    + rewrite IH. pose proof (split_on_nonempty c l) as Hl.
      destruct (split_on c l) as [|p ps] eqn:E; [done|].
      symmetry. apply app_last_cons_head. apply split_on_nonempty.
Qed.

Lemma split_on_single c cs p : split_on c cs = [p] -> p = cs.
Proof.
  revert p. induction cs as [|x cs IH]; simpl; intros p.
  - by intros [= <-].
  - destruct (Ascii.eqb x c).
    + intros [= <- H]. by apply split_on_nonempty in H.
    + destruct (split_on c cs) as [|q qs] eqn:E; [by intros [= <-]; apply split_on_nonempty in E|].
      intros [= <- ->]. f_equal. by apply IH.
Qed.

Lemma join_split_on c cs : join c (split_on c cs) = cs.
Proof.
  induction cs as [|x cs IH]; simpl; [done|].
  destruct (Ascii.eqb x c) eqn:E.
  - apply Ascii.eqb_eq in E. subst x.
    pose proof (split_on_nonempty c cs).
    destruct (split_on c cs) as [|q qs] eqn:Hs; [done|]. simpl in *. by rewrite IH.
  - destruct (split_on c cs) as [|q qs] eqn:Hs.
    + by apply split_on_nonempty in Hs.
    + destruct qs; simpl in *; by rewrite <- IH.
Qed.

(** *** Numeric identifiers *)

Lemma numeric_identifier_digits cs :
  numeric_identifier cs = true -> forallb is_digit cs = true.
Proof.
  destruct cs as [|c [|c' cs]]; simpl; [done| |].
  - intros ->. done.
  - intros [[-> _]%andb_true_iff H]%andb_true_iff. done.
Qed.

Lemma fold_digits_ge cs : forall acc,
  (acc <= fold_left (fun a c => a * 10 + digit_value c) cs acc)%N.
Proof.
  induction cs as [|c cs IH]; intros acc; simpl; [lia|].
  etransitivity; [|apply IH]. lia.
Qed.

Lemma digits_value_app_ge a r : (digits_value a <= digits_value (a ++ r))%N.
Proof. unfold digits_value. rewrite fold_left_app. apply fold_digits_ge. Qed.

Lemma forallb_impl {A : Type} (f g : A -> bool) (l : list A) :
  (forall x, f x = true -> g x = true) -> forallb f l = true -> forallb g l = true.
Proof.
  intros Himp. induction l as [|x l IH]; simpl; [done|].
  intros [Hx Hl]%andb_true_iff. by rewrite (Himp x Hx), (IH Hl).
Qed.

(** The main part of a version is made of kept characters. *)
Lemma parse_main_inv m x y z :
  parse_main m = Some (x, y, z) ->
  exists a b d,
    split_on "." m = [a; b; d]
    /\ x = digits_value a /\ y = digits_value b /\ z = digits_value d
    /\ forallb kept m = true.
Proof.
  unfold parse_main.
  destruct (split_on "." m) as [|a [|b [|d [|? ?]]]] eqn:Hs; try discriminate.
  destruct (numeric_identifier a) eqn:Ha; simpl; [|discriminate].
  destruct (numeric_identifier b) eqn:Hb; simpl; [|discriminate].
  destruct (numeric_identifier d) eqn:Hd; simpl; [|discriminate].
  match goal with |- context [if ?c then _ else _] => destruct c end; [|discriminate].
  intros [= <- <- <-]. exists a, b, d. repeat split; try done.
  rewrite <- (join_split_on "." m), Hs. simpl.
  rewrite !forallb_app. simpl. rewrite !forallb_app. simpl.
  apply numeric_identifier_digits in Ha, Hb, Hd.
  rewrite (forallb_impl _ _ a digit_kept Ha), (forallb_impl _ _ b digit_kept Hb),
    (forallb_impl _ _ d digit_kept Hd).
  reflexivity.
Qed.

(** What [parse] accepts, piece by piece. *)
Lemma parse_inv L v :
  parse L = Some v ->
  exists t m p b,
    (trim (list_ascii_of_string L) = t \/ trim (list_ascii_of_string L) = "v"%char :: t)
    /\ t = (m ++ match p with Some r => "-"%char :: r | None => [] end)
           ++ match b with Some r => "+"%char :: r | None => [] end
    /\ parse_main m = Some (major v, minor v, patch v)
    /\ parse_pre p = Some (pre v).
Proof.
  unfold parse.
  destruct (MAX_LENGTH <? String.length L)%nat; [discriminate|].
  set (t0 := trim (list_ascii_of_string L)).
  set (t := match t0 with
            | c :: r => if Ascii.eqb c "v" then r else t0
            | [] => t0
            end).
  assert (t0 = t \/ t0 = "v"%char :: t) as Ht.
  { subst t. destruct t0 as [|c r]; [by left|].
    destruct (Ascii.eqb c "v") eqn:E; [|by left].
    apply Ascii.eqb_eq in E. subst c. by right. }
  clearbody t.
  destruct (break_at "+" t) as [mp b] eqn:Hb.
  destruct (break_at "-" mp) as [m p] eqn:Hp.
  destruct (parse_main m) as [[[x y] z]|] eqn:Hm; [|discriminate].
  destruct (parse_pre p) as [ids|] eqn:Hpre; [|discriminate].
  destruct (parse_build b) as [bs|] eqn:Hbuild; [|discriminate].
  intros [= <-]. simpl. exists t, m, p, b.
  apply break_at_spec in Hb, Hp. subst mp. by repeat split.
Qed.

(** What [parse] makes of a string of kept characters. *)
Lemma parse_kept s v :
  forallb kept (list_ascii_of_string s) = true ->
  parse s = Some v ->
  parse_main (list_ascii_of_string s) = Some (major v, minor v, patch v) /\ pre v = [].
Proof.
  intros Hk. unfold parse.
  destruct (MAX_LENGTH <? String.length s)%nat; [discriminate|].
  rewrite (trim_kept _ Hk).
  set (cs := list_ascii_of_string s) in *.
  assert (match cs with
          | c :: r => if Ascii.eqb c "v" then r else cs
          | [] => cs
          end = cs) as ->.
  { destruct cs as [|c r]; [done|]. simpl in Hk. apply andb_true_iff in Hk as [Hc _].
    by destruct (kept_not_special c Hc) as (-> & _). }
  rewrite (break_at_absent "+" cs)
    by (eapply forallb_impl; [|exact Hk]; intros x Hx;
        by destruct (kept_not_special x Hx) as (_ & -> & _)).
  rewrite (break_at_absent "-" cs)
    by (eapply forallb_impl; [|exact Hk]; intros x Hx;
        by destruct (kept_not_special x Hx) as (_ & _ & ->)).
  destruct (parse_main cs) as [[[x y] z]|]; [|discriminate].
  simpl. by intros [= <-].
Qed.

Lemma filter_kept_tail (c : ascii) r :
  kept c = false ->
  List.filter kept (match r with Some x => c :: x | None => [] end)
  = List.filter kept (match r with Some x => x | None => [] end).
Proof. intros Hc. destruct r; simpl; [by rewrite Hc|done]. Qed.

(** The version read off a stripped version string has the same major and
    minor numbers, a patch number that is not smaller, and no prerelease
    part. *)
Lemma parse_stripped L vL vc :
  parse L = Some vL ->
  parse (strip_non_digit_dot L) = Some vc ->
  major vc = major vL /\ minor vc = minor vL /\ (patch vL <= patch vc)%N /\ pre vc = [].
Proof.
  intros HL Hc.
  destruct (parse_inv L vL HL) as (t & m & p & b & Ht & -> & Hm & _).
  destruct (parse_main_inv m _ _ _ Hm) as (a1 & b1 & d1 & Hs & Hx & Hy & Hz & Hkm).
  set (r := List.filter kept (match p with Some x => x | None => [] end)
            ++ List.filter kept (match b with Some x => x | None => [] end)).
  assert (list_ascii_of_string (strip_non_digit_dot L) = m ++ r) as Hstrip.
  { rewrite strip_list, <- filter_kept_trim.
    assert (List.filter kept (trim (list_ascii_of_string L))
            = List.filter kept
                ((m ++ match p with Some r => "-"%char :: r | None => [] end)
                 ++ match b with Some r => "+"%char :: r | None => [] end)) as ->.
    { by destruct Ht as [->| ->]. }
    rewrite !List.filter_app, (forallb_filter_id _ _ Hkm).
    rewrite !filter_kept_tail by reflexivity.
    subst r. by rewrite app_assoc. }
  assert (forallb kept (m ++ r) = true) as Hk.
  { rewrite forallb_app, Hkm. subst r. by rewrite forallb_app, !forallb_filter. }
  rewrite <- Hstrip in Hk.
  destruct (parse_kept _ vc Hk Hc) as [Hmc Hpre].
  rewrite Hstrip in Hmc.
  destruct (parse_main_inv _ _ _ _ Hmc) as (a2 & b2 & d2 & Hs2 & Hx2 & Hy2 & Hz2 & _).
  rewrite split_on_app, Hs in Hs2. simpl in Hs2.
  destruct (split_on "." r) as [|q qs] eqn:Hr; [by apply split_on_nonempty in Hr|].
  injection Hs2 as <- <- <- ->.
  rewrite Hx2, Hy2, Hz2, Hx, Hy, Hz. repeat split; try done.
  apply digits_value_app_ge.
Qed.

(** A version is never greater than its own stripped form. *)
Lemma gt_stripped L :
  parse L <> None ->
  parse (strip_non_digit_dot L) <> None ->
  gt L (strip_non_digit_dot L) = Ok false.
Proof.
  unfold gt.
  destruct (parse L) as [vL|] eqn:HL; [|done].
  destruct (parse (strip_non_digit_dot L)) as [vc|] eqn:Hc; [|done].
  intros _ _. destruct (parse_stripped L vL vc HL Hc) as (Hma & Hmi & Hpa & Hpre).
  unfold compare, compareMain, comparePre.
  rewrite Hma, Hmi, Hpre, !N.compare_refl.
  destruct (patch vL ?= patch vc)%N eqn:E.
  - by destruct (pre vL).
  - done.
  - apply N.compare_gt_iff in E. lia.
Qed.

Lemma strip_caret s : strip_non_digit_dot ("^" +:+ s) = strip_non_digit_dot s.
Proof. reflexivity. Qed.

Lemma valid_empty : valid "" = None.
Proof. reflexivity. Qed.

(** No version has a single character. *)
Lemma valid_one_char c : valid (strip_non_digit_dot (String c "")) = None.
Proof. ascii_cases c; reflexivity. Qed.

Lemma valid_parse s : truthy_str (valid s) = true -> parse s <> None.
Proof. unfold valid. by destruct (parse s). Qed.

Lemma gt_parse a b : gt a b = Ok true -> parse a <> None.
Proof. unfold gt. by destruct (parse a). Qed.

End SemverFacts.

(** ** C9: the second run *)

Section SecondRun.

Variable registry : Registry.

Lemma run_checks_all_none es :
  (forall e, In e es -> snd (check_entry registry e) = Ok None) ->
  snd (run_checks registry es) = Ok [].
Proof.
  induction es as [|e es IH]; intros Hall; [done|].
  apply run_checks_Ok_cons. exists None, []. split; [apply Hall; by left|].
  split; [|done]. apply IH. intros e' Hin. apply Hall. by right.
Qed.

Lemma run_checks_entry es : forall outdated e,
  snd (run_checks registry es) = Ok outdated -> In e es ->
  exists r, snd (check_entry registry e) = Ok r
            /\ forall d, r = Some d -> In d outdated.
Proof.
  induction es as [|e0 es IH]; intros outdated e; [done|].
  intros (r0 & l & Hc & Hr & ->)%run_checks_Ok_cons [->|Hin].
  - exists r0. split; [done|]. intros d ->. by left.
  - destruct (IH l e Hr Hin) as (r & Hre & Hrd). exists r. split; [done|].
    intros d Hd. specialize (Hrd d Hd). destruct r0; [by right|done].
Qed.

Lemma strip_new_range d :
  strip_non_digit_dot (new_range d) = strip_non_digit_dot (latest d).
Proof. unfold new_range. by destruct (startsWith (current d) "^"). Qed.

(** Once an outdated entry holds its new range, it is no longer outdated
    against the same registry. *)
Lemma updated_entry_excluded d :
  snd (check_entry registry (name d, JStr (current d))) = Ok (Some d) ->
  snd (check_entry registry (name d, JStr (new_range d))) = Ok None.
Proof.
  intros Hc.
  destruct (check_entry_some registry _ _ _ Hc) as (_ & _ & _ & _ & Hl & Hne & Hgt & _).
  rewrite check_entry_string, strip_new_range.
  destruct (non_null (prerelease (new_range d))
            || negb (truthy_str (valid (strip_non_digit_dot (latest d))))) eqn:E; [done|].
  apply orb_false_iff in E as [_ Hv]. apply negb_false_iff in Hv.
  rewrite Hl. apply String.eqb_neq in Hne. rewrite Hne.
  cbn [gt valid semver_model] in *.
  rewrite SemverFacts.gt_stripped; [done| |].
  - by eapply SemverFacts.gt_parse.
  - by apply SemverFacts.valid_parse.
Qed.

Lemma outdated_current_nonempty n v d :
  snd (check_entry registry (n, v)) = Ok (Some d) -> truthy (JStr (current d)) = true.
Proof.
  intros Hc.
  destruct (check_entry_some registry _ _ _ Hc) as (_ & _ & _ & Hv & _).
  destruct (current d); [|done]. discriminate.
Qed.

(** A catalog object in which every outdated entry has been updated has no
    outdated entry left. *)
Lemma second_run_object (o : object) outdated :
  NoDup (keys o) ->
  snd (run_checks registry o) = Ok outdated ->
  snd (run_checks registry (fold_left update_object outdated o)) = Ok [].
Proof.
  intros Hnd Hr. apply run_checks_all_none. intros [n v'] Hin.
  set (o' := fold_left update_object outdated o) in *.
  assert (NoDup (keys o')) as Hnd'
    by (subst o'; by rewrite fold_update_object_keys).
  pose proof (assoc_get_NoDup n v' o' Hnd' Hin) as Hget'.
  destruct (in_dec string_dec n (map name outdated)) as [Hinn|Hni].
  - apply in_map_iff in Hinn as (d & <- & Hd).
    destruct (run_checks_In registry o outdated d Hr Hd) as [Hino Hcheck].
    pose proof (assoc_get_NoDup _ _ o Hnd Hino) as Hget.
    pose proof (outdated_current_nonempty _ _ _ Hcheck) as Htr.
    pose proof (run_checks_names_NoDup registry o outdated Hnd Hr) as Hndn.
    subst o'.
    rewrite (fold_update_object_hit outdated d o _ Hndn Hd Hget Htr) in Hget'.
    injection Hget' as <-. by apply updated_entry_excluded.
  - subst o'. rewrite fold_update_object_other in Hget' by done.
    apply assoc_get_In in Hget'.
    destruct (run_checks_entry o outdated (n, v') Hr Hget') as ([d|] & Hc & Hd); [|done].
    exfalso. apply Hni.
    destruct (check_entry_some registry _ _ _ Hc) as (<- & _).
    apply in_map. by apply Hd.
Qed.

Lemma string_entries_none i s : forall e,
  In e (string_entries i s) -> snd (check_entry registry e) = Ok None.
Proof.
  revert i. induction s as [|c s IH]; intros i e; simpl; [done|].
  intros [<-|Hin]; [|by eapply IH].
  rewrite check_entry_string. cbn [valid semver_model].
  by rewrite SemverFacts.valid_one_char, orb_true_r.
Qed.

(** A catalog that is not an object of the heap has no outdated entry. *)
Lemma no_object_outdated (h : heap) c :
  catalog_loc c = None -> snd (run_checks registry (catalog_entries h c)) = Ok [].
Proof.
  destruct c as [[| | | |s|l]|]; try done. intros _.
  apply run_checks_all_none. apply string_entries_none.
Qed.

End SecondRun.

(** After a run with [--update] and no filter that got past the checks,
    the document has no outdated entry against the same registry. *)
Lemma second_run_after_checks
  (registry : Registry) (fl : Flags) (h : heap) (doc : jsval)
  (outdated : list OutdatedInfo) :
  unique_keys h ->
  shouldUpdate fl = true ->
  any_filter fl = false ->
  outdated_of registry h doc = Ok outdated ->
  outdated_of registry (final (checkDependencies registry fl h doc)) doc = Ok [].
Proof.
  intros Huk Hu Hany Ho.
  destruct (doc_catalog h doc) as [c|] eqn:Hc; [|unfold outdated_of in Ho; by rewrite Hc in Ho].
  pose proof (outdated_of_catalog registry h doc c outdated Hc Ho) as Hr.
  assert (final (checkDependencies registry fl h doc) = h -> outdated = [] ->
          outdated_of registry (final (checkDependencies registry fl h doc)) doc = Ok [])
    as Hsame.
  { intros -> ->. done. }
  destruct (catalog_loc c) as [l|] eqn:Hl.
  - apply catalog_loc_Some in Hl. subst c.
    destruct outdated as [|d0 outdated].
    + apply Hsame; [|done].
      destruct (run_spec registry fl h doc) as [[? _]|(c' & o' & Hc' & Hr' & Hne & _)]; [done|].
      rewrite Hc in Hc'. injection Hc' as <-. congruence.
    + destruct (run_updates registry fl h doc l (d0 :: outdated) Hc Ho) as (_ & Hobj & _);
        [done|done|].
      unfold outdated_of. rewrite run_doc_catalog, Hc. cbn [bind catalog_entries Object_entries].
      rewrite Hobj.
      assert (toUpdate fl (d0 :: outdated) = d0 :: outdated) as ->.
      { unfold toUpdate. unfold any_filter in Hany. by rewrite Hany. }
      apply second_run_object; [|exact Hr].
      unfold heap_object. destruct (h !! l) as [o|] eqn:Hh; [by eapply Huk|constructor].
  - pose proof (no_object_outdated registry h c Hl) as Hnone.
    apply Hsame; [|congruence].
    destruct (run_spec registry fl h doc) as [[? _]|(c' & o' & Hc' & _ & _ & _ & _ & Hfin)]; [done|].
    rewrite Hc in Hc'. injection Hc' as <-. by rewrite Hl in Hfin.
Qed.

(** A run that does not get past the checks leaves the heap as it was. *)
Lemma aborted_run_final (registry : Registry) (fl : Flags) (h : heap) (doc : jsval) (e : exn) :
  outdated_of registry h doc = Throw e ->
  final (checkDependencies registry fl h doc) = h.
Proof.
  intros Ho.
  destruct (run_spec registry fl h doc) as [[? _]|(c & o & Hc & Hr & _)]; [done|].
  unfold outdated_of in Ho. rewrite Hc in Ho. cbn [bind] in Ho. congruence.
Qed.

(** C9 (as stated) fails: not every second run computes the empty
    outdated set.  Take the catalog [{foo: 1.0.0, bar: 1.0.0}] and a
    registry that answers [canary] as the latest version of [foo] and
    [1.3.0] as that of [bar]: [gt] throws on [canary], the first run is
    aborted and changes nothing, and the second run, against the same
    registry, is aborted in the same way. *)
Lemma C9_aborted_run_is_repeated :
  ~ (forall (registry : Registry) (fl : Flags) (h : heap) (doc : jsval),
       unique_keys h ->
       shouldUpdate fl = true ->
       any_filter fl = false ->
       outdated_of registry (final (checkDependencies registry fl h doc)) doc = Ok []).
Proof.
  intros H.
  specialize (H canary_registry update_all canary_heap (JRef 0)).
  assert (unique_keys canary_heap) as Huk by (apply unique_keys_decide; by vm_compute).
  specialize (H Huk eq_refl eq_refl). vm_compute in H. discriminate.
Qed.

(** Both runs on that catalog: no outdated set, nothing written, and [bar]
    still behind its latest version. *)
Example canary_example :
  let first := checkDependencies canary_registry update_all canary_heap (JRef 0) in
  final first = canary_heap
  /\ written first = None
  /\ console first =
     [(LLog, "Found 2 dependencies in catalog. Fetching latest versions in parallel...");
      (LError, "Error checking dependencies: Invalid Version: canary")]
  /\ outdated_of canary_registry (final first) (JRef 0)
     = Throw (TypeError "Invalid Version: canary")
  /\ snd (check_entry canary_registry ("bar", get_prop (final first) (JRef 1) "bar"))
     = Ok (Some {| name := "bar"; current := "1.0.0"; latest := "1.3.0";
                   type := Some RtMinor |}).
Proof. by vm_compute. Qed.

(** C9, amended.  Run the pipeline with [--update] and no filter on a
    document (its objects have unique keys, as every object has) on which
    the run is not aborted by an exception: it computes an outdated set.
    Then run it again on the resulting document against a registry that
    answers the same.  The second run computes the empty outdated set. *)
Theorem C9_second_run_after_completed_run_finds_nothing
  (registry : Registry) (fl : Flags) (h : heap) (doc : jsval)
  (outdated : list OutdatedInfo) :
  unique_keys h ->
  shouldUpdate fl = true ->
  any_filter fl = false ->
  outdated_of registry h doc = Ok outdated ->
  outdated_of registry (final (checkDependencies registry fl h doc)) doc = Ok [].
Proof.
  intros Huk Hu Hany Ho.
  by apply (second_run_after_checks registry fl h doc outdated).
Qed.

(** On the sample document: three outdated entries on the first run, none
    on the second. *)
Lemma C9_witness_sample :
  outdated_of sample_registry
    (final (checkDependencies sample_registry update_all sample_heap (JRef 0))) (JRef 0)
  = Ok [].
Proof.
  apply (C9_second_run_after_completed_run_finds_nothing sample_registry update_all
           sample_heap (JRef 0) [sample_foo; sample_bar; sample_baz]).
  - exact sample_heap_unique_keys.
  - reflexivity.
  - reflexivity.
  - by vm_compute.
Defined.

Example second_run_sample_example :
  outdated_of sample_registry sample_heap (JRef 0) = Ok [sample_foo; sample_bar; sample_baz]
  /\ outdated_of sample_registry
       (final (checkDependencies sample_registry update_all sample_heap (JRef 0))) (JRef 0)
     = Ok [].
Proof. by vm_compute. Qed.

Example second_run_prerelease_example :
  outdated_of pre_registry
    (final (checkDependencies pre_registry update_all pre_heap (JRef 0))) (JRef 0)
  = Ok [].
Proof. by vm_compute. Qed.

(** * Further properties of the pipeline *)

(** ** Runs that write nothing *)

(** X1.  Without [--update] a run writes nothing and leaves the document as
    it was, and the [--patch], [--minor] and [--major] flags change nothing
    about it: two audit runs that differ in these flags only have the same
    outcome. *)
Theorem X1_audit_run_ignores_filters
  {semver : SemverApi} (registry : Registry) (fl fl' : Flags) (h : heap) (doc : jsval) :
  shouldUpdate fl = false ->
  shouldUpdate fl' = false ->
  checkDependencies registry fl h doc = checkDependencies registry fl' h doc
  /\ final (checkDependencies registry fl h doc) = h
  /\ written (checkDependencies registry fl h doc) = None.
Proof.
  intros Hu Hu'. unfold checkDependencies.
  destruct (doc_catalog h doc) as [c|[msg]]; [|done].
  destruct (run_checks registry (catalog_entries h c)) as [fo [outdated|[msg]]]; [|done].
  destruct outdated as [|d0 outdated]; [done|].
  by rewrite Hu, Hu'.
Qed.

Lemma X1_witness_sample :
  checkDependencies sample_registry all_flags_off sample_heap (JRef 0)
  = checkDependencies sample_registry
      {| shouldUpdate := false; updatePatch := true; updateMinor := false; updateMajor := true |}
      sample_heap (JRef 0)
  /\ final (checkDependencies sample_registry all_flags_off sample_heap (JRef 0)) = sample_heap
  /\ written (checkDependencies sample_registry all_flags_off sample_heap (JRef 0)) = None.
Proof.
  apply (X1_audit_run_ignores_filters sample_registry all_flags_off
           {| shouldUpdate := false; updatePatch := true;
              updateMinor := false; updateMajor := true |} sample_heap (JRef 0));
    reflexivity.
Defined.

(** X2.  When no entry is outdated the run prints, after the count line and
    the diagnostics of the lookups, the single line "All dependencies are
    up to date."; it writes nothing and changes nothing, with [--update] as
    without. *)
Theorem X2_up_to_date_run
  {semver : SemverApi} (registry : Registry) (fl : Flags) (h : heap) (doc : jsval)
  (c : Catalog) :
  doc_catalog h doc = Ok c ->
  outdated_of registry h doc = Ok [] ->
  let out := checkDependencies registry fl h doc in
  console out =
    found_line (catalog_entries h c) :: fst (run_checks registry (catalog_entries h c))
    ++ [(LLog, "All dependencies are up to date.")]
  /\ written out = None
  /\ final out = h.
Proof.
  intros Hc Ho out. subst out.
  pose proof (outdated_of_catalog registry h doc c [] Hc Ho) as Hr.
  unfold checkDependencies. rewrite Hc.
  destruct (run_checks registry (catalog_entries h c)) as [fo r].
  cbn [snd] in Hr. subst r. done.
Qed.

(** [left-pad: ^1.0.0] against a registry that reports [1.0.0]. *)
Lemma X2_witness_left_pad :
  let h : heap := {[ 0 := [("catalog", JRef 1)]; 1 := [("left-pad", JStr "^1.0.0")] ]} in
  let out := checkDependencies pre_registry update_all h (JRef 0) in
  console out =
    found_line (catalog_entries h (FromDoc (JRef 1)))
    :: fst (run_checks pre_registry (catalog_entries h (FromDoc (JRef 1))))
    ++ [(LLog, "All dependencies are up to date.")]
  /\ written out = None
  /\ final out = h.
Proof.
  apply (X2_up_to_date_run pre_registry update_all
           {[ 0 := [("catalog", JRef 1)]; 1 := [("left-pad", JStr "^1.0.0")] ]}
           (JRef 0) (FromDoc (JRef 1))); by vm_compute.
Defined.

Section AtOnce.

Context {semver : SemverApi}.
Variable registry : Registry.

Lemma throws_at_once_spec v :
  throws_at_once v = true <->
  match v with JStr _ | JNull | JUndefined => False | _ => True end.
Proof. by destruct v. Qed.

Lemma throws_at_once_check n v :
  throws_at_once v = true ->
  snd (check_entry registry (n, v)) = Throw (TypeError "version.replace is not a function").
Proof. intros H. apply check_entry_not_string. by apply throws_at_once_spec. Qed.

(** A callback that throws at once rejects [Promise.all] before anything
    else does. *)
Lemma first_rejected_at_once (es : object) :
  existsb (fun e => throws_at_once (snd e)) es = true ->
  first_rejected (map (fun e => (throws_at_once (snd e), snd (check_entry registry e))) es)
  = Some (TypeError "version.replace is not a function").
Proof.
  induction es as [|[n v] es IH]; [discriminate|].
  cbn [existsb map snd first_rejected].
  destruct (throws_at_once v) eqn:E.
  - intros _. by rewrite (throws_at_once_check n v E).
  - cbn [orb]. intros H. rewrite (IH H).
    by destruct (snd (check_entry registry (n, v))).
Qed.

Lemma run_checks_at_once (es : object) :
  existsb (fun e => throws_at_once (snd e)) es = true ->
  snd (run_checks registry es) = Throw (TypeError "version.replace is not a function")
  /\ lookups_around_rejection registry es = ([], fst (run_checks registry es)).
Proof.
  intros H. unfold run_checks, lookups_around_rejection, promise_all. cbn [fst snd].
  by rewrite (first_rejected_at_once es H), H.
Qed.

End AtOnce.

(** X3.  One catalog value that is neither a string nor [null] (a YAML
    number, boolean or nested mapping) aborts the whole run, whatever the
    flags and the registry.  Its callback throws on line 125, before any
    lookup completes, and [Promise.all] rejects with that exception: the
    [catch] logs its error line right after the count line, and the
    diagnostics of the lookups still pending come after it.  No outdated set
    is computed, nothing is reported, written or changed. *)
Theorem X3_non_string_value_aborts
  {semver : SemverApi} (registry : Registry) (fl : Flags) (h : heap) (doc : jsval)
  (c : Catalog) (n : string) (v : jsval) :
  doc_catalog h doc = Ok c ->
  In (n, v) (catalog_entries h c) ->
  match v with JStr _ | JNull | JUndefined => False | _ => True end ->
  let out := checkDependencies registry fl h doc in
  exists msg,
    cleanVersion v = Throw (TypeError msg)
    /\ outdated_of registry h doc = Throw (TypeError msg)
    /\ console out =
       [(LLog, "Found " +:+ show_nat (length (catalog_entries h c))
               +:+ " dependencies in catalog. Fetching latest versions in parallel...");
        (LError, "Error checking dependencies: " +:+ msg)]
       ++ concat (map (fun e => fst (check_entry registry e)) (catalog_entries h c))
    /\ written out = None
    /\ final out = h.
Proof.
  intros Hc Hin Hv out. subst out.
  assert (existsb (fun e => throws_at_once (snd e)) (catalog_entries h c) = true) as Hex.
  { apply existsb_exists. exists (n, v). split; [done|]. by apply throws_at_once_spec. }
  destruct (run_checks_at_once registry _ Hex) as [Hthrow Hlines].
  exists "version.replace is not a function". split; [by destruct v|].
  unfold outdated_of, checkDependencies. rewrite Hc. cbn [bind]. rewrite Hlines.
  destruct (run_checks registry (catalog_entries h c)) as [fo r] eqn:Hr.
  cbn [snd fst] in *. subst r. repeat split; try done.
  cbn [aborted console]. unfold run_checks in Hr. injection Hr as <- _.
  by rewrite map_map.
Qed.

(** [{foo: 1, bar: 1.0.0, qux: 3.0.0}] with the lookup of [qux] refused:
    the error line comes before the warning of [qux]. *)
Lemma X3_witness_number :
  let out := checkDependencies sample_registry update_all refused_heap (JRef 0) in
  exists msg,
    cleanVersion (JNum 1) = Throw (TypeError msg)
    /\ outdated_of sample_registry refused_heap (JRef 0) = Throw (TypeError msg)
    /\ console out =
       [(LLog, "Found " +:+ show_nat (length (catalog_entries refused_heap (FromDoc (JRef 1))))
               +:+ " dependencies in catalog. Fetching latest versions in parallel...");
        (LError, "Error checking dependencies: " +:+ msg)]
       ++ concat (map (fun e => fst (check_entry sample_registry e))
                    (catalog_entries refused_heap (FromDoc (JRef 1))))
    /\ written out = None
    /\ final out = refused_heap.
Proof.
  apply (X3_non_string_value_aborts sample_registry update_all refused_heap
           (JRef 0) (FromDoc (JRef 1)) "foo" (JNum 1)).
  - by vm_compute.
  - vm_compute. auto.
  - exact I.
Defined.

Example abort_console_example :
  console (checkDependencies sample_registry update_all refused_heap (JRef 0))
  = [(LLog, "Found 3 dependencies in catalog. Fetching latest versions in parallel...");
     (LError, "Error checking dependencies: version.replace is not a function");
     (LWarn, "Failed to fetch version for qux: Not Found")].
Proof. by vm_compute. Qed.

(** X9.  A document without a catalog (the property is absent, [null] or
    otherwise falsy) is a document with no dependencies: the run counts 0,
    prints "All dependencies are up to date.", and writes nothing. *)
Theorem X9_absent_catalog_is_empty
  {semver : SemverApi} (registry : Registry) (fl : Flags) (h : heap) (doc : jsval) :
  doc <> JNull -> doc <> JUndefined ->
  truthy (get_prop h doc "catalog") = false ->
  checkDependencies registry fl h doc
  = {| console := [(LLog, "Found 0 dependencies in catalog. Fetching latest versions in parallel...");
                   (LLog, "All dependencies are up to date.")];
       final := h;
       written := None |}.
Proof.
  intros Hn Hu Hf. unfold checkDependencies, doc_catalog.
  destruct doc; try done; by rewrite Hf.
Qed.

Lemma X9_witness_packages_only :
  checkDependencies sample_registry update_all
    ({[ 0 := [("packages", JRef 1)]; 1 := [("0", JStr "apps/*")] ]} : heap) (JRef 0)
  = {| console := [(LLog, "Found 0 dependencies in catalog. Fetching latest versions in parallel...");
                   (LLog, "All dependencies are up to date.")];
       final := {[ 0 := [("packages", JRef 1)]; 1 := [("0", JStr "apps/*")] ]};
       written := None |}.
Proof.
  apply (X9_absent_catalog_is_empty sample_registry update_all
           {[ 0 := [("packages", JRef 1)]; 1 := [("0", JStr "apps/*")] ]} (JRef 0));
    try discriminate.
  by vm_compute.
Defined.

(** ** The outdated set *)

(** X4.  An entry that is skipped before the lookup ([null] value, a value
    that is a prerelease version, or a value whose normalization is not a
    valid version) is excluded without any request: whatever the registry
    would answer, nothing is logged for it. *)
Theorem X4_skipped_entry_makes_no_request
  {semver : SemverApi} (registry : Registry) (n : string) (v : jsval) :
  match v with
  | JNull | JUndefined => True
  | JStr s => prerelease s <> None \/ truthy_str (valid (strip_non_digit_dot s)) = false
  | _ => False
  end ->
  check_entry registry (n, v) = ([], Ok None).
Proof.
  destruct v as [| | | |s|]; try done.
  intros Hs. unfold check_entry. cbn [cleanVersion].
  destruct Hs as [Hp|Hv].
  - by destruct (prerelease s).
  - by rewrite Hv, orb_true_r.
Qed.

(** A prerelease version in the catalog, with the lookup of its name
    failing: no diagnostic. *)
Lemma X4_witness_prerelease :
  check_entry (fun _ => FetchRejected "offline") ("next", JStr "2.0.0-beta.1") = ([], Ok None).
Proof.
  apply (X4_skipped_entry_makes_no_request (fun _ => FetchRejected "offline")
           "next" (JStr "2.0.0-beta.1")).
  left. discriminate.
Defined.

Section Order.

Context {semver : SemverApi}.
Variable registry : Registry.

Lemma run_checks_sublist es : forall outdated,
  snd (run_checks registry es) = Ok outdated ->
  sublist (map (fun d => (name d, JStr (current d))) outdated) es.
Proof.
  induction es as [|[n v] es IH]; intros outdated.
  - rewrite run_checks_nil. intros [= <-]. constructor.
  - intros (r & l & Hc & Hr & ->)%run_checks_Ok_cons. specialize (IH l Hr).
    destruct r as [d|]; [|by apply sublist_cons].
    destruct (check_entry_some registry _ _ _ Hc) as (<- & -> & _).
    simpl. by apply sublist_skip.
Qed.

(** An entry of the catalog that checks as outdated is in the outdated
    set. *)
Lemma run_checks_complete es : forall outdated e d,
  snd (run_checks registry es) = Ok outdated -> In e es ->
  snd (check_entry registry e) = Ok (Some d) -> In d outdated.
Proof.
  induction es as [|e0 es IH]; intros outdated e d; [done|].
  intros (r0 & l & Hc & Hr & ->)%run_checks_Ok_cons [->|Hin] Hd.
  - rewrite Hc in Hd. injection Hd as ->. by left.
  - specialize (IH l e d Hr Hin Hd). destruct r0; [by right|done].
Qed.

End Order.

(** X5.  The outdated set of a run that gets past the checks holds exactly
    the entries [name: current] of the catalog whose value is a string that
    is not a prerelease version, whose normalization is valid, and for
    which the registry reports a non-empty latest version strictly greater
    than the normalized current one; each is recorded with that latest
    version and the release type of the difference. *)
Theorem X5_outdated_set_membership
  {semver : SemverApi} (registry : Registry) (h : heap) (doc : jsval) (c : Catalog)
  (outdated : list OutdatedInfo) (d : OutdatedInfo) :
  doc_catalog h doc = Ok c ->
  outdated_of registry h doc = Ok outdated ->
  In d outdated <->
  In (name d, JStr (current d)) (catalog_entries h c)
  /\ prerelease (current d) = None
  /\ truthy_str (valid (strip_non_digit_dot (current d))) = true
  /\ snd (getLatestVersion registry (name d)) = Some (latest d)
  /\ latest d <> ""
  /\ gt (latest d) (strip_non_digit_dot (current d)) = Ok true
  /\ diff (strip_non_digit_dot (current d)) (latest d) = Ok (type d).
Proof.
  intros Hc Ho.
  pose proof (outdated_of_catalog registry h doc c outdated Hc Ho) as Hr.
  split.
  - intros Hin.
    destruct (run_checks_In registry _ _ _ Hr Hin) as [Hino Hcheck].
    destruct (check_entry_some registry _ _ _ Hcheck) as (_ & _ & ?). by split.
  - intros (Hin & Hp & Hv & Hl & Hne & Hgt & Hdiff).
    apply (run_checks_complete registry _ _ _ d Hr Hin).
    rewrite check_entry_string, Hp, Hv, Hl. cbn [non_null negb orb].
    apply String.eqb_neq in Hne. rewrite Hne, Hgt. cbn [bind].
    rewrite Hdiff. cbn [bind]. by destruct d.
Qed.

Lemma X5_witness_sample :
  In sample_foo [sample_foo; sample_bar; sample_baz] <->
  In (name sample_foo, JStr (current sample_foo)) (catalog_entries sample_heap (FromDoc (JRef 1)))
  /\ prerelease (current sample_foo) = None
  /\ truthy_str (valid (strip_non_digit_dot (current sample_foo))) = true
  /\ snd (getLatestVersion sample_registry (name sample_foo)) = Some (latest sample_foo)
  /\ latest sample_foo <> ""
  /\ gt (latest sample_foo) (strip_non_digit_dot (current sample_foo)) = Ok true
  /\ diff (strip_non_digit_dot (current sample_foo)) (latest sample_foo) = Ok (type sample_foo).
Proof.
  apply (X5_outdated_set_membership sample_registry sample_heap (JRef 0) (FromDoc (JRef 1))
           [sample_foo; sample_bar; sample_baz] sample_foo).
  - exact sample_catalog.
  - exact sample_outdated.
Defined.


(** X6.  The outdated entries come in catalog order: the list of their
    [name: current] pairs is a sublist of the catalog's entries.  With
    unique keys in the catalog there is at most one outdated entry per
    dependency. *)
Theorem X6_outdated_in_catalog_order
  {semver : SemverApi} (registry : Registry) (h : heap) (doc : jsval) (c : Catalog)
  (outdated : list OutdatedInfo) :
  doc_catalog h doc = Ok c ->
  outdated_of registry h doc = Ok outdated ->
  sublist (map (fun d => (name d, JStr (current d))) outdated) (catalog_entries h c)
  /\ (NoDup (keys (catalog_entries h c)) -> NoDup (map name outdated)).
Proof.
  intros Hc Ho.
  pose proof (outdated_of_catalog registry h doc c outdated Hc Ho) as Hr.
  split; [by apply (run_checks_sublist registry)|].
  intros Hnd. by apply (run_checks_names_NoDup registry (catalog_entries h c)).
Qed.

Lemma X6_witness_sample :
  sublist (map (fun d => (name d, JStr (current d))) [sample_foo; sample_bar; sample_baz])
    (catalog_entries sample_heap (FromDoc (JRef 1)))
  /\ (NoDup (keys (catalog_entries sample_heap (FromDoc (JRef 1)))) ->
      NoDup (map name [sample_foo; sample_bar; sample_baz])).
Proof.
  apply (X6_outdated_in_catalog_order sample_registry sample_heap (JRef 0) (FromDoc (JRef 1))).
  - exact sample_catalog.
  - exact sample_outdated.
Defined.

(** X12.  A run consults the registry at the names of the catalog only: two
    registries that answer alike on these names give the same outcome
    (console, document and write). *)
Theorem X12_registry_read_at_catalog_names_only
  {semver : SemverApi} (registry registry' : Registry) (fl : Flags) (h : heap) (doc : jsval) :
  (forall n, In n (catalog_names h doc) -> registry' n = registry n) ->
  checkDependencies registry' fl h doc = checkDependencies registry fl h doc.
Proof.
  intros Hsame. unfold checkDependencies, catalog_names in *.
  destruct (doc_catalog h doc) as [c|]; [|done].
  assert (forall e, In e (catalog_entries h c) ->
                    check_entry registry' e = check_entry registry e) as Hext.
  { intros [n v] Hin. apply (check_entry_registry_ext registry registry' n v).
    apply Hsame. unfold keys. change n with (fst (n, v)). by apply in_map. }
  assert (run_checks registry' (catalog_entries h c)
          = run_checks registry (catalog_entries h c)) as ->.
  { unfold run_checks. f_equal.
    - f_equal. f_equal. by apply map_ext_in.
    - f_equal. f_equal. apply map_ext_in. intros e Hin. by rewrite (Hext e Hin). }
  assert (lookups_around_rejection registry' (catalog_entries h c)
          = lookups_around_rejection registry (catalog_entries h c)) as ->; [|done].
  unfold lookups_around_rejection.
  by rewrite (map_ext_in _ _ _ Hext).
Qed.

(** A registry that also knows [react] answers the sample catalog alike. *)
Lemma X12_witness_sample :
  checkDependencies
    (fun n => if String.eqb n "react" then DistTags (Some "19.0.0") else sample_registry n)
    update_all sample_heap (JRef 0)
  = checkDependencies sample_registry update_all sample_heap (JRef 0).
Proof.
  apply (X12_registry_read_at_catalog_names_only sample_registry
           (fun n => if String.eqb n "react" then DistTags (Some "19.0.0") else sample_registry n)
           update_all sample_heap (JRef 0)).
  intros n Hin. vm_compute in Hin.
  destruct Hin as [<-|[<-|[<-|[<-|[]]]]]; reflexivity.
Defined.

(** ** The console of an audit and the scope of an update *)

(** X7.  The console of an audit run with outdated entries is: the count
    line; the diagnostics of the lookups; the header; then the major, the
    minor and the patch entries, in this order.  Each of the three groups is
    its title line (a line break, two spaces and the title in red, blue or
    green) followed by one line [    name: current -> latest] per entry, in
    catalog order; an empty group prints nothing, not even its title. *)
Theorem X7_audit_console_layout
  {semver : SemverApi} (registry : Registry) (fl : Flags) (h : heap) (doc : jsval)
  (c : Catalog) (outdated : list OutdatedInfo) :
  doc_catalog h doc = Ok c ->
  outdated_of registry h doc = Ok outdated ->
  outdated <> [] ->
  shouldUpdate fl = false ->
  let entry := fun dep : OutdatedInfo =>
    (LLog, "    " +:+ name dep +:+ ": " +:+ current dep +:+ " -> " +:+ latest dep) in
  let lines := fun (title : string) (deps : list OutdatedInfo) =>
    match deps with
    | [] => []
    | _ :: _ => (LLog, title) :: map entry deps
    end in
  console (checkDependencies registry fl h doc) =
  (LLog, "Found " +:+ show_nat (length (catalog_entries h c))
         +:+ " dependencies in catalog. Fetching latest versions in parallel...")
  :: concat (map (fun e => fst (check_entry registry e)) (catalog_entries h c))
  ++ [(LLog, "Outdated dependencies found:")]
  ++ lines (nl +:+ "  " +:+ esc +:+ "[31mMajor Updates:" +:+ esc +:+ "[0m")
       (List.filter (fun dep => has_type dep RtMajor) outdated)
  ++ lines (nl +:+ "  " +:+ esc +:+ "[34mMinor Updates:" +:+ esc +:+ "[0m")
       (List.filter (fun dep => has_type dep RtMinor) outdated)
  ++ lines (nl +:+ "  " +:+ esc +:+ "[32mPatch Updates:" +:+ esc +:+ "[0m")
       (List.filter (fun dep => has_type dep RtPatch) outdated).
Proof.
  intros Hc Ho Hne Hu entry lines.
  pose proof (outdated_of_catalog registry h doc c outdated Hc Ho) as Hr.
  unfold checkDependencies. rewrite Hc.
  destruct (run_checks registry (catalog_entries h c)) as [fo r] eqn:Hrun.
  cbn [snd fst] in *. subst r.
  unfold run_checks in Hrun. injection Hrun as <- _. rewrite map_map.
  destruct outdated as [|d0 outdated]; [done|].
  rewrite Hu. cbn [console]. by rewrite report_spec.
Qed.

(** The sample catalog: one major entry and two minor ones, no patch
    entry. *)
Lemma X7_witness_sample :
  console (checkDependencies sample_registry all_flags_off sample_heap (JRef 0)) =
  [(LLog, "Found 4 dependencies in catalog. Fetching latest versions in parallel...");
   (LWarn, "Failed to fetch version for qux: Not Found");
   (LLog, "Outdated dependencies found:");
   (LLog, nl +:+ "  " +:+ esc +:+ "[31mMajor Updates:" +:+ esc +:+ "[0m");
   (LLog, "    baz: ~2.1.0 -> 3.0.0");
   (LLog, nl +:+ "  " +:+ esc +:+ "[34mMinor Updates:" +:+ esc +:+ "[0m");
   (LLog, "    foo: ^1.2.3 -> 1.3.0");
   (LLog, "    bar: 1.2.3 -> 1.3.0")].
Proof.
  exact (X7_audit_console_layout sample_registry all_flags_off sample_heap (JRef 0)
           (FromDoc (JRef 1)) [sample_foo; sample_bar; sample_baz]
           sample_catalog sample_outdated
           (fun H => eq_ind [] (fun l => match l with [] => True | _ :: _ => False end) I _
                       (eq_sym H))
           eq_refl).
Defined.

Example audit_console_example :
  console (checkDependencies sample_registry all_flags_off sample_heap (JRef 0)) =
  [(LLog, "Found 4 dependencies in catalog. Fetching latest versions in parallel...");
   (LWarn, "Failed to fetch version for qux: Not Found");
   (LLog, "Outdated dependencies found:");
   (LLog, major_title);
   (LLog, "    baz: ~2.1.0 -> 3.0.0");
   (LLog, minor_title);
   (LLog, "    foo: ^1.2.3 -> 1.3.0");
   (LLog, "    bar: 1.2.3 -> 1.3.0")].
Proof. by vm_compute. Qed.

(** X8.  Under [--update] with filters that select none of the outdated
    entries, the run still writes: the manifest is re-serialized from a
    document in which nothing was assigned. *)
Theorem X8_update_selecting_nothing_still_writes
  {semver : SemverApi} (registry : Registry) (fl : Flags) (h : heap) (doc : jsval)
  (outdated : list OutdatedInfo) :
  outdated_of registry h doc = Ok outdated ->
  outdated <> [] ->
  shouldUpdate fl = true ->
  any_filter fl = true ->
  (forall dep, In dep outdated -> selected fl dep = false) ->
  let out := checkDependencies registry fl h doc in
  toUpdate fl outdated = []
  /\ written out = Some (h, doc)
  /\ final out = h.
Proof.
  intros Ho Hne Hu Hany Hsel out. subst out.
  assert (toUpdate fl outdated = []) as Hnone.
  { destruct (toUpdate fl outdated) as [|d l] eqn:E; [done|].
    assert (In d (toUpdate fl outdated)) as Hin by (rewrite E; by left).
    apply toUpdate_In in Hin as [Hin [?|Hs]]; [congruence|].
    rewrite (Hsel d Hin) in Hs. discriminate. }
  split; [done|].
  destruct (doc_catalog h doc) as [c|] eqn:Hc;
    [|unfold outdated_of in Ho; rewrite Hc in Ho; discriminate].
  pose proof (outdated_of_catalog registry h doc c outdated Hc Ho) as Hr.
  unfold checkDependencies. rewrite Hc.
  destruct (run_checks registry (catalog_entries h c)) as [fo r].
  cbn [snd] in Hr. subst r.
  destruct outdated as [|d0 outdated]; [done|].
  rewrite Hu, Hnone. done.
Qed.

(** [--update --patch] on the sample catalog, whose outdated entries are
    minor and major. *)
Lemma X8_witness_patch_only :
  let fl := {| shouldUpdate := true; updatePatch := true;
               updateMinor := false; updateMajor := false |} in
  let out := checkDependencies sample_registry fl sample_heap (JRef 0) in
  toUpdate fl [sample_foo; sample_bar; sample_baz] = []
  /\ written out = Some (sample_heap, JRef 0)
  /\ final out = sample_heap.
Proof.
  apply (X8_update_selecting_nothing_still_writes sample_registry
           {| shouldUpdate := true; updatePatch := true;
              updateMinor := false; updateMajor := false |}
           sample_heap (JRef 0) [sample_foo; sample_bar; sample_baz]).
  - exact sample_outdated.
  - discriminate.
  - reflexivity.
  - reflexivity.
  - intros dep [<-|[<-|[<-|[]]]]; reflexivity.
Defined.

(** X11.  A run changes the value of no catalog key other than the names
    selected for update: entries that are up to date, skipped, or whose
    lookup failed read after the run as before, whatever the flags. *)
Theorem X11_unselected_keys_keep_their_value
  {semver : SemverApi} (registry : Registry) (fl : Flags) (h : heap) (doc : jsval)
  (l : loc) (outdated : list OutdatedInfo) (k : string) :
  doc_catalog h doc = Ok (FromDoc (JRef l)) ->
  outdated_of registry h doc = Ok outdated ->
  ~ In k (map name (toUpdate fl outdated)) ->
  get_prop (final (checkDependencies registry fl h doc)) (JRef l) k = get_prop h (JRef l) k.
Proof.
  intros Hc Ho Hni.
  pose proof (outdated_of_catalog registry h doc _ outdated Hc Ho) as Hr.
  destruct (run_spec registry fl h doc)
    as [[-> _]|(c' & o' & Hc' & Hr' & _ & _ & _ & Hfin)]; [done|].
  rewrite Hc in Hc'. injection Hc' as <-. cbn [catalog_loc] in Hfin.
  destruct Hfin as [Hobj _].
  assert (o' = outdated) as -> by congruence.
  unfold get_prop. cbn [Object_entries]. rewrite Hobj.
  by rewrite fold_update_object_other.
Qed.

(** [qux], whose lookup fails, keeps [3.0.0] through an unfiltered update. *)
Lemma X11_witness_qux :
  get_prop (final (checkDependencies sample_registry update_all sample_heap (JRef 0)))
    (JRef 1) "qux"
  = get_prop sample_heap (JRef 1) "qux".
Proof.
  apply (X11_unselected_keys_keep_their_value sample_registry update_all sample_heap
           (JRef 0) 1 [sample_foo; sample_bar; sample_baz] "qux").
  - exact sample_catalog.
  - exact sample_outdated.
  - simpl. intros [H|[H|[H|[]]]]; discriminate.
Defined.

(** ** The normalization of a range *)

Lemma strip_only_digits_dots s : only_digits_dots (strip_non_digit_dot s) = true.
Proof.
  induction s as [|c s IH]; simpl; [done|].
  destruct (is_digit c || is_dot c) eqn:E; simpl; [by rewrite E|done].
Qed.

Lemma strip_fixed v : only_digits_dots v = true -> strip_non_digit_dot v = v.
Proof.
  induction v as [|c v IH]; simpl; [done|].
  intros [-> Hv]%andb_true_iff. by rewrite (IH Hv).
Qed.

Lemma strip_prefix p v :
  no_digits_dots p = true -> strip_non_digit_dot (p +:+ v) = strip_non_digit_dot v.
Proof.
  induction p as [|c p IH]; [done|].
  change (String c p +:+ v) with (String c (p +:+ v)). simpl.
  intros [Hc Hp]%andb_true_iff. apply negb_true_iff in Hc. by rewrite Hc, (IH Hp).
Qed.

(** X10.  The normalization [replace(/[^\d.]/g, '')] returns digits and
    dots only and is idempotent; it removes any prefix free of digits and
    dots (such as [^], [~], [>=] or [v]) in front of a plain version and
    returns that version unchanged. *)
Theorem X10_normalization_strips_range_prefix (s p v : string) :
  only_digits_dots (strip_non_digit_dot s) = true
  /\ strip_non_digit_dot (strip_non_digit_dot s) = strip_non_digit_dot s
  /\ (no_digits_dots p = true -> only_digits_dots v = true ->
      strip_non_digit_dot (p +:+ v) = v).
Proof.
  split; [apply strip_only_digits_dots|]. split.
  - apply strip_fixed, strip_only_digits_dots.
  - intros Hp Hv. by rewrite (strip_prefix p v Hp), (strip_fixed v Hv).
Qed.

Lemma X10_witness_range :
  only_digits_dots (strip_non_digit_dot ">=1.2.3 <2.0.0") = true
  /\ strip_non_digit_dot (strip_non_digit_dot ">=1.2.3 <2.0.0")
     = strip_non_digit_dot ">=1.2.3 <2.0.0"
  /\ (no_digits_dots ">=" = true -> only_digits_dots "1.2.3" = true ->
      strip_non_digit_dot (">=" +:+ "1.2.3") = "1.2.3").
Proof. apply (X10_normalization_strips_range_prefix ">=1.2.3 <2.0.0" ">=" "1.2.3"). Defined.

(** * The command line and the locator *)

(** ** [findPnpmWorkspaceFile] *)

Lemma first_existing_Some fs paths p :
  first_existing fs paths = Some p <->
  exists before after,
    paths = before ++ p :: after
    /\ fs p = Exists
    /\ forall q, In q before -> fs q <> Exists.
Proof.
  induction paths as [|x paths IH]; simpl.
  - split; [discriminate|]. intros (b & a & H & _). by destruct b.
  - destruct (fs x) eqn:Hx.
    + split.
      * intros [= <-]. exists [], paths. by repeat split.
      * intros ([|y b] & a & Heq & Hp & Hb).
        -- by injection Heq as ->.
        -- injection Heq as <- _. exfalso. apply (Hb x); [by left|done].
    + rewrite IH. split.
      * intros (b & a & -> & Hp & Hb). exists (x :: b), a. repeat split; [done|].
        intros q [<-|Hq]; [congruence|by apply Hb].
      * intros ([|y b] & a & Heq & Hp & Hb).
        -- injection Heq as -> _. congruence.
        -- injection Heq as -> ->. exists b, a. repeat split; [done|].
           intros q Hq. apply Hb. by right.
    + rewrite IH. split.
      * intros (b & a & -> & Hp & Hb). exists (x :: b), a. repeat split; [done|].
        intros q [<-|Hq]; [congruence|by apply Hb].
      * intros ([|y b] & a & Heq & Hp & Hb).
        -- injection Heq as -> _. congruence.
        -- injection Heq as -> ->. exists b, a. repeat split; [done|].
           intros q Hq. apply Hb. by right.
Qed.

Lemma first_existing_None fs paths :
  first_existing fs paths = None <-> forall q, In q paths -> fs q <> Exists.
Proof.
  induction paths as [|x paths IH]; simpl; [done|].
  destruct (fs x) eqn:Hx.
  - split; [discriminate|]. intros H. exfalso. apply (H x); [by left|done].
  - rewrite IH. split.
    + intros H q [<-|Hq]; [congruence|by apply H].
    + intros H q Hq. apply H. by right.
  - rewrite IH. split.
    + intros H q [<-|Hq]; [congruence|by apply H].
    + intros H q Hq. apply H. by right.
Qed.

(** X13.  [findPnpmWorkspaceFile] probes three candidates in this order:
    [./pnpm-workspace.yaml], [../pnpm-workspace.yaml] and
    [../../pnpm-workspace.yaml].  It returns the first of them that exists,
    a candidate whose probe throws counting as absent, and it returns
    [null] exactly when none of the three exists. *)
Theorem X13_findPnpmWorkspaceFile_first_existing (fs : FileSystem) (p : string) :
  (findPnpmWorkspaceFile fs = Some p <->
   exists before after,
     ["./pnpm-workspace.yaml"; "../pnpm-workspace.yaml"; "../../pnpm-workspace.yaml"]
     = before ++ p :: after
     /\ fs p = Exists
     /\ forall q, In q before -> fs q <> Exists)
  /\ (findPnpmWorkspaceFile fs = None <->
      fs "./pnpm-workspace.yaml" <> Exists
      /\ fs "../pnpm-workspace.yaml" <> Exists
      /\ fs "../../pnpm-workspace.yaml" <> Exists).
Proof.
  split; [apply (first_existing_Some fs searchPaths)|].
  unfold findPnpmWorkspaceFile. rewrite first_existing_None. unfold searchPaths. split.
  - intros H. repeat split; apply H; simpl; auto.
  - intros (H1 & H2 & H3) q [<-|[<-|[<-|[]]]]; done.
Qed.

(** The manifest is in the parent directory and the probe of the current
    directory throws: the parent's path is returned. *)
Lemma X13_witness_parent :
  findPnpmWorkspaceFile parent_fs = Some "../pnpm-workspace.yaml".
Proof.
  apply (proj1 (X13_findPnpmWorkspaceFile_first_existing parent_fs "../pnpm-workspace.yaml")).
  exists ["./pnpm-workspace.yaml"], ["../../pnpm-workspace.yaml"].
  split; [reflexivity|]. split; [reflexivity|].
  intros q [<-|[]]. discriminate.
Defined.

Example find_parent_example :
  findPnpmWorkspaceFile parent_fs = Some "../pnpm-workspace.yaml".
Proof. reflexivity. Qed.

(** ** The flags *)

Lemma has_In argv x : has argv x = true <-> In x argv.
Proof.
  unfold has. rewrite existsb_exists. split.
  - intros (y & Hy & Heq). apply String.eqb_eq in Heq. by subst.
  - intros Hin. exists x. split; [done|apply String.eqb_refl].
Qed.

Lemma has_Permutation argv argv' x : Permutation argv argv' -> has argv x = has argv' x.
Proof.
  intros Hp. destruct (has argv x) eqn:E, (has argv' x) eqn:E'; try done.
  - apply has_In in E. apply (Permutation_in _ Hp) in E. apply has_In in E. congruence.
  - apply has_In in E'. apply (Permutation_in _ (Permutation_sym Hp)) in E'.
    apply has_In in E'. congruence.
Qed.

(** X14.  The flags are read by presence, not by position: command lines
    that are permutations of one another set the same [--update],
    [--patch], [--minor], [--major] and help flags. *)
Theorem X14_flags_do_not_depend_on_order (argv argv' : list string) :
  Permutation argv argv' ->
  parse_flags argv = parse_flags argv' /\ showHelp argv = showHelp argv'.
Proof.
  intros Hp. unfold parse_flags, showHelp.
  by rewrite !(has_Permutation argv argv' _ Hp).
Qed.

Lemma X14_witness_swap :
  parse_flags ["bun"; "index.ts"; "--update"; "--minor"]
  = parse_flags ["bun"; "index.ts"; "--minor"; "--update"]
  /\ showHelp ["bun"; "index.ts"; "--update"; "--minor"]
     = showHelp ["bun"; "index.ts"; "--minor"; "--update"].
Proof.
  apply (X14_flags_do_not_depend_on_order ["bun"; "index.ts"; "--update"; "--minor"]
           ["bun"; "index.ts"; "--minor"; "--update"]).
  do 2 apply perm_skip. apply perm_swap.
Defined.

Lemma findIndex_first (p : string -> bool) before x after :
  (forall y, In y before -> p y = false) -> p x = true ->
  findIndex p (before ++ x :: after) = Some (length before).
Proof.
  intros Hb Hx. induction before as [|y before IH]; simpl.
  - by rewrite Hx.
  - rewrite (Hb y) by (by left). rewrite IH; [done|]. intros z Hz. apply Hb. by right.
Qed.

Lemma findIndex_none (p : string -> bool) l :
  (forall y, In y l -> p y = false) -> findIndex p l = None.
Proof.
  induction l as [|y l IH]; simpl; [done|]. intros H.
  rewrite (H y) by (by left). rewrite IH; [done|]. intros z Hz. apply H. by right.
Qed.

Lemma not_w before : ~ In "-w" before -> forall y, In y before -> String.eqb y "-w" = false.
Proof. intros Hni y Hy. apply String.eqb_neq. intros ->. done. Qed.

(** The argument after the first [-w], whatever it is. *)
Lemma workspaceFilePath_after_w (before after : list string) (path : string) :
  ~ In "-w" before ->
  workspaceFilePath (before ++ "-w" :: path :: after) = Some path
  /\ workspaceFilePath (before ++ "-w" :: "" :: after) = Some "".
Proof.
  intros Hni. pose proof (not_w before Hni) as Hb. unfold workspaceFilePath.
  rewrite !findIndex_first by done. rewrite !length_app. simpl.
  destruct (length before + 1 <? length before + S (S (length after)))%nat eqn:E;
    [|apply Nat.ltb_ge in E; lia].
  rewrite !nth_error_app2 by lia.
  by replace (length before + 1 - length before)%nat with 1%nat by lia.
Qed.

(** X15.  The manifest path is the argument that follows the first [-w]:
    later [-w] flags do not count, a [-w] that is the last argument gives
    no path, and neither does a command line without [-w]. *)
Theorem X15_w_takes_the_next_argument (before after : list string) (path : string) :
  ~ In "-w" before ->
  workspaceFilePath (before ++ "-w" :: path :: after) = Some path
  /\ workspaceFilePath (before ++ ["-w"]) = None
  /\ workspaceFilePath before = None.
Proof.
  intros Hni. pose proof (not_w before Hni) as Hb. unfold workspaceFilePath.
  rewrite !findIndex_first by done. rewrite (findIndex_none _ before Hb).
  split; [|split; [|done]].
  - rewrite length_app. simpl.
    destruct (length before + 1 <? length before + S (S (length after)))%nat eqn:E;
      [|apply Nat.ltb_ge in E; lia].
    rewrite nth_error_app2 by lia.
    by replace (length before + 1 - length before)%nat with 1%nat by lia.
  - rewrite length_app. simpl.
    destruct (length before + 1 <? length before + 1)%nat eqn:E; [|done].
    apply Nat.ltb_lt in E. lia.
Qed.

Lemma X15_witness_two_w :
  workspaceFilePath (["bun"; "index.ts"; "--update"] ++ "-w" :: "a.yaml" :: ["-w"; "b.yaml"])
  = Some "a.yaml"
  /\ workspaceFilePath (["bun"; "index.ts"; "--update"] ++ ["-w"]) = None
  /\ workspaceFilePath ["bun"; "index.ts"; "--update"] = None.
Proof.
  apply (X15_w_takes_the_next_argument ["bun"; "index.ts"; "--update"] ["-w"; "b.yaml"] "a.yaml").
  simpl. intros [H|[H|[H|[]]]]; discriminate.
Defined.

Lemma findIndex_Some_nth (p : string -> bool) l i :
  findIndex p l = Some i -> exists x, nth_error l i = Some x /\ p x = true.
Proof.
  revert i. induction l as [|y l IH]; simpl; intros i; [discriminate|].
  destruct (p y) eqn:Hy.
  - intros [= <-]. by exists y.
  - destruct (findIndex p l) as [j|]; [|discriminate].
    intros [= <-]. by apply IH.
Qed.

(** X16.  The argument taken as the manifest path is still an argument: it
    is also read as a flag.  After [-w --update] the path is "--update"
    and the update flag is set. *)
Theorem X16_path_argument_is_also_a_flag (argv : list string) (path : string) :
  workspaceFilePath argv = Some path ->
  has argv path = true
  /\ In "-w" argv
  /\ (path = "--update" -> shouldUpdate (parse_flags argv) = true)
  /\ (path = "--help" -> showHelp argv = true).
Proof.
  unfold workspaceFilePath.
  destruct (findIndex (fun arg => String.eqb arg "-w") argv) as [i|] eqn:Hi; [|discriminate].
  destruct (i + 1 <? length argv)%nat; [|discriminate].
  intros Hnth. apply nth_error_In in Hnth.
  assert (has argv path = true) as Hhas by (by apply has_In).
  split; [done|]. split.
  - destruct (findIndex_Some_nth _ _ _ Hi) as (x & Hx & Heq).
    apply String.eqb_eq in Heq. subst x. by apply nth_error_In in Hx.
  - split; intros ->; [done|]. unfold showHelp. by rewrite Hhas.
Qed.

Lemma X16_witness_w_update :
  has ["bun"; "index.ts"; "-w"; "--update"] "--update" = true
  /\ In "-w" ["bun"; "index.ts"; "-w"; "--update"]
  /\ ("--update" = "--update" ->
      shouldUpdate (parse_flags ["bun"; "index.ts"; "-w"; "--update"]) = true)
  /\ ("--update" = "--help" -> showHelp ["bun"; "index.ts"; "-w"; "--update"] = true).
Proof.
  apply (X16_path_argument_is_also_a_flag ["bun"; "index.ts"; "-w"; "--update"] "--update").
  reflexivity.
Defined.

(** ** The program *)

Lemma detect_exists fs path : detect fs = LocatedAt path -> fs path = Exists.
Proof.
  unfold detect. destruct (findPnpmWorkspaceFile fs) as [q|] eqn:Hf; [|discriminate].
  destruct (negb (String.eqb q "")); [|discriminate]. intros [= ->].
  apply first_existing_Some in Hf as (_ & _ & _ & Hq & _). exact Hq.
Qed.

Lemma locate_exists explicit fs path : locate explicit fs = LocatedAt path -> fs path = Exists.
Proof.
  unfold locate. destruct explicit as [q|]; [|apply detect_exists].
  destruct (negb (String.eqb q "")); [|apply detect_exists].
  destruct (fs q) eqn:Hq; try discriminate. by intros [= <-].
Qed.

(** X17.  With [--help] or [-h] anywhere on the command line the program
    prints the usage text and exits with status 0; it does no other work:
    the outcome is the same whatever the file system, the manifest and the
    registry are, and whatever other flags are given. *)
Theorem X17_help_does_nothing_else
  {semver : SemverApi} (registry registry' : Registry) (argv : list string)
  (fs fs' : FileSystem) (load load' : Loader) :
  In "--help" argv \/ In "-h" argv ->
  program registry argv fs load = program registry' argv fs' load'
  /\ program registry argv fs load
     = {| printed := [(LLog, helpText)]; exit := ExitCode 0; wrote := None |}.
Proof.
  intros Hin.
  assert (showHelp argv = true) as Hh.
  { unfold showHelp. apply orb_true_iff. by rewrite !has_In. }
  unfold program. by rewrite Hh.
Qed.

Lemma X17_witness_help_with_update :
  program sample_registry ["bun"; "index.ts"; "--update"; "-h"] parent_fs sample_loader
  = program (fun _ => NotOk "Service Unavailable") ["bun"; "index.ts"; "--update"; "-h"]
      (fun _ => Missing) (fun _ => LoadFailed "unreadable")
  /\ program sample_registry ["bun"; "index.ts"; "--update"; "-h"] parent_fs sample_loader
     = {| printed := [(LLog, helpText)]; exit := ExitCode 0; wrote := None |}.
Proof.
  apply (X17_help_does_nothing_else sample_registry (fun _ => NotOk "Service Unavailable")
           ["bun"; "index.ts"; "--update"; "-h"] parent_fs (fun _ => Missing)
           sample_loader (fun _ => LoadFailed "unreadable")).
  right. simpl. auto.
Defined.

(** X18.  A non-empty path given after [-w] is the only place looked at:
    when it exists it is the manifest, and when it does not the program
    prints the error for that path and exits with status 1 without probing
    the conventional locations, even if a manifest is there.  An empty path
    argument falls back to automatic detection. *)
Theorem X18_explicit_path_bypasses_detection
  {semver : SemverApi} (registry : Registry) (before after : list string) (path : string)
  (fs : FileSystem) (load : Loader) :
  ~ In "-w" before ->
  path <> "" ->
  let argv := before ++ "-w" :: path :: after in
  locate (workspaceFilePath argv) fs
  = match fs path with
    | Exists => LocatedAt path
    | Missing =>
        NotFound ("Error: pnpm-workspace.yaml not found at specified path: " +:+ path)
    | ProbeThrows => ProbeRejected
    end
  /\ (showHelp argv = false -> fs path = Missing ->
      program registry argv fs load
      = {| printed :=
             [(LLog, "Looking for pnpm-workspace.yaml...");
              (LError, "Error: pnpm-workspace.yaml not found at specified path: " +:+ path)];
           exit := ExitCode 1;
           wrote := None |})
  /\ locate (workspaceFilePath (before ++ "-w" :: "" :: after)) fs = detect fs.
Proof.
  intros Hni Hne argv. subst argv.
  destruct (workspaceFilePath_after_w before after path Hni) as [Hw Hw0].
  apply String.eqb_neq in Hne.
  assert (locate (Some path) fs
          = match fs path with
            | Exists => LocatedAt path
            | Missing =>
                NotFound ("Error: pnpm-workspace.yaml not found at specified path: " +:+ path)
            | ProbeThrows => ProbeRejected
            end) as Hloc.
  { unfold locate. by rewrite Hne. }
  rewrite Hw. split; [done|]. split.
  - intros Hh Hm. unfold program. rewrite Hh, Hw, Hloc, Hm. done.
  - by rewrite Hw0.
Qed.

(** [-w missing.yaml] with a manifest in the parent directory: exit 1. *)
Lemma X18_witness_missing_explicit :
  let argv := ["bun"; "index.ts"] ++ "-w" :: "missing.yaml" :: ["--update"] in
  locate (workspaceFilePath argv) parent_fs
  = match parent_fs "missing.yaml" with
    | Exists => LocatedAt "missing.yaml"
    | Missing =>
        NotFound ("Error: pnpm-workspace.yaml not found at specified path: " +:+ "missing.yaml")
    | ProbeThrows => ProbeRejected
    end
  /\ (showHelp argv = false -> parent_fs "missing.yaml" = Missing ->
      program sample_registry argv parent_fs sample_loader
      = {| printed :=
             [(LLog, "Looking for pnpm-workspace.yaml...");
              (LError, "Error: pnpm-workspace.yaml not found at specified path: "
                       +:+ "missing.yaml")];
           exit := ExitCode 1;
           wrote := None |})
  /\ locate (workspaceFilePath (["bun"; "index.ts"] ++ "-w" :: "" :: ["--update"])) parent_fs
     = detect parent_fs.
Proof.
  apply (X18_explicit_path_bypasses_detection sample_registry ["bun"; "index.ts"] ["--update"]
           "missing.yaml" parent_fs sample_loader).
  - simpl. intros [H|[H|[]]]; discriminate.
  - discriminate.
Defined.

Section ProgramFacts.

Context {semver : SemverApi}.
Variable registry : Registry.

(** What a write of [checkDependencies] presupposes. *)
Lemma written_inv fl (h : heap) doc w :
  written (checkDependencies registry fl h doc) = Some w ->
  shouldUpdate fl = true
  /\ w = (final (checkDependencies registry fl h doc), doc)
  /\ exists outdated, outdated_of registry h doc = Ok outdated /\ outdated <> [].
Proof.
  intros Hw.
  destruct (run_spec registry fl h doc)
    as [[_ Hn]|(c & outdated & Hc & Hr & Hne & Hu & Hw' & _)]; [congruence|].
  split; [done|]. split; [congruence|].
  exists outdated. split; [|done]. unfold outdated_of. by rewrite Hc.
Qed.

End ProgramFacts.

(** X19.  The program writes at most one file, and only the manifest it
    located: a write happens only without a help flag, with [--update] on
    the command line, to the located path, which exists, after that file
    was loaded and a non-empty outdated set was computed from it; what is
    written is the loaded document as the update left it. *)
Theorem X19_program_writes_only_the_located_manifest
  {semver : SemverApi} (registry : Registry) (argv : list string) (fs : FileSystem)
  (load : Loader) (path : string) (w : heap * jsval) :
  wrote (program registry argv fs load) = Some (path, w) ->
  showHelp argv = false
  /\ In "--update" argv
  /\ locate (workspaceFilePath argv) fs = LocatedAt path
  /\ fs path = Exists
  /\ exists h doc outdated,
      load path = Loaded h doc
      /\ outdated_of registry h doc = Ok outdated
      /\ outdated <> []
      /\ w = (final (checkDependencies registry (parse_flags argv) h doc), doc).
Proof.
  unfold program.
  destruct (showHelp argv); [discriminate|].
  destruct (locate (workspaceFilePath argv) fs) as [p|m|] eqn:Hloc; try discriminate.
  destruct (load p) as [h doc|err] eqn:Hload; [|discriminate].
  cbn [wrote].
  destruct (written (checkDependencies registry (parse_flags argv) h doc)) as [w'|] eqn:Hw;
    [|discriminate].
  intros [= -> ->].
  destruct (written_inv registry _ _ _ _ Hw) as (Hu & -> & outdated & Ho & Hne).
  split; [done|]. split; [by apply has_In|]. split; [done|].
  split; [by apply (locate_exists _ _ _ Hloc)|].
  by exists h, doc, outdated.
Qed.

Lemma sample_program_wrote :
  wrote (program sample_registry ["bun"; "index.ts"; "--update"] parent_fs sample_loader)
  = Some ("../pnpm-workspace.yaml",
          (final (checkDependencies sample_registry update_all sample_heap (JRef 0)), JRef 0)).
Proof. by vm_compute. Qed.

(** [--update] with the manifest in the parent directory. *)
Lemma X19_witness_parent :
  let argv := ["bun"; "index.ts"; "--update"] in
  showHelp argv = false
  /\ In "--update" argv
  /\ locate (workspaceFilePath argv) parent_fs = LocatedAt "../pnpm-workspace.yaml"
  /\ parent_fs "../pnpm-workspace.yaml" = Exists
  /\ exists h doc outdated,
      sample_loader "../pnpm-workspace.yaml" = Loaded h doc
      /\ outdated_of sample_registry h doc = Ok outdated
      /\ outdated <> []
      /\ (final (checkDependencies sample_registry update_all sample_heap (JRef 0)), JRef 0)
         = (final (checkDependencies sample_registry (parse_flags argv) h doc), doc).
Proof.
  apply (X19_program_writes_only_the_located_manifest sample_registry
           ["bun"; "index.ts"; "--update"] parent_fs sample_loader).
  exact sample_program_wrote.
Defined.

(** X20.  When no manifest is located or the located one cannot be read or
    parsed, the registry is never consulted and nothing is written: the
    outcome is the same for every registry. *)
Theorem X20_no_manifest_no_lookup
  {semver : SemverApi} (registry registry' : Registry) (argv : list string)
  (fs : FileSystem) (load : Loader) :
  (forall path, locate (workspaceFilePath argv) fs = LocatedAt path ->
                exists err, load path = LoadFailed err) ->
  program registry argv fs load = program registry' argv fs load
  /\ wrote (program registry argv fs load) = None.
Proof.
  intros Hload. unfold program.
  destruct (showHelp argv); [done|].
  destruct (locate (workspaceFilePath argv) fs) as [p|m|]; try done.
  destruct (Hload p eq_refl) as [err ->]. done.
Qed.

Lemma X20_witness_unparsable :
  program sample_registry ["bun"; "index.ts"; "--update"] parent_fs
    (fun _ => LoadFailed "YAMLException: bad indentation")
  = program (fun _ => DistTags (Some "9.9.9")) ["bun"; "index.ts"; "--update"] parent_fs
      (fun _ => LoadFailed "YAMLException: bad indentation")
  /\ wrote (program sample_registry ["bun"; "index.ts"; "--update"] parent_fs
              (fun _ => LoadFailed "YAMLException: bad indentation")) = None.
Proof.
  apply (X20_no_manifest_no_lookup sample_registry (fun _ => DistTags (Some "9.9.9"))
           ["bun"; "index.ts"; "--update"] parent_fs
           (fun _ => LoadFailed "YAMLException: bad indentation")).
  intros path _. by eexists.
Defined.

Lemma program_exit
  {semver : SemverApi} (registry : Registry) (argv : list string) (fs : FileSystem)
  (load : Loader) :
  exit (program registry argv fs load) =
  if showHelp argv then ExitCode 0
  else match locate (workspaceFilePath argv) fs with
       | LocatedAt _ => RunsToEnd
       | NotFound _ => ExitCode 1
       | ProbeRejected => UnhandledRejection
       end.
Proof.
  unfold program. destruct (showHelp argv); [done|].
  destruct (locate (workspaceFilePath argv) fs) as [p|m|]; try done.
  by destruct (load p).
Qed.

(** X21.  The exit calls tell only whether a manifest was found:
    [process.exit(1)] is called exactly when, without a help flag, no
    manifest is located, and [process.exit(0)] exactly for a help flag; once
    a manifest is located the program runs to its end with no exit call,
    whether lookups failed, the manifest could not be parsed or the run was
    aborted by an exception. *)
Theorem X21_exit_status
  {semver : SemverApi} (registry : Registry) (argv : list string) (fs : FileSystem)
  (load : Loader) :
  (exit (program registry argv fs load) = ExitCode 1 <->
   showHelp argv = false /\ exists m, locate (workspaceFilePath argv) fs = NotFound m)
  /\ (exit (program registry argv fs load) = ExitCode 0 <-> showHelp argv = true)
  /\ (showHelp argv = false ->
      forall path, locate (workspaceFilePath argv) fs = LocatedAt path ->
      exit (program registry argv fs load) = RunsToEnd).
Proof.
  rewrite program_exit.
  destruct (showHelp argv).
  - repeat split; try done. by intros [? _].
  - destruct (locate (workspaceFilePath argv) fs) as [p|m|] eqn:Hloc.
    + repeat split; try done. intros (_ & m & Hm). discriminate.
    + repeat split; try done. by exists m.
    + repeat split; try done. intros (_ & m & Hm). discriminate.
Qed.

Example exit_after_aborted_run :
  exit (program sample_registry ["bun"; "index.ts"; "--update"] parent_fs
          (fun _ => Loaded number_heap (JRef 0))) = RunsToEnd.
Proof. reflexivity. Qed.

(** * The run after a filtered update *)

Lemma same_keys_map (o' : object) : forall o : object,
  NoDup (keys o) -> keys o' = keys o ->
  o' = map (fun kv => (fst kv, match assoc_get (fst kv) o' with
                               | Some x => x
                               | None => snd kv
                               end)) o.
Proof.
  induction o' as [|[k' v'] t' IH]; intros [|[k v] t] Hnd Hk; try discriminate; [done|].
  simpl in Hk. injection Hk as -> Hk. simpl in Hnd. apply NoDup_cons in Hnd as [Hni Hnd].
  cbn [map fst snd assoc_get]. rewrite String.eqb_refl. f_equal.
  rewrite (IH t Hnd Hk) at 1. apply map_ext_in. intros [k2 v2] Hin. cbn [fst snd].
  destruct (String.eqb k k2) eqn:E; [|done].
  apply String.eqb_eq in E. subst k2. exfalso. apply Hni.
  apply list_elem_of_In. change k with (fst (k, v2)). by apply in_map.
Qed.

Section FilteredUpdate.

Variable registry : Registry.

Lemma run_checks_map (f : string * jsval -> string * jsval) (sel : OutdatedInfo -> bool) es :
  forall out,
  (forall e, In e es ->
     snd (check_entry registry (f e))
     = match snd (check_entry registry e) with
       | Ok (Some d) => if sel d then Ok None else Ok (Some d)
       | r => r
       end) ->
  snd (run_checks registry es) = Ok out ->
  snd (run_checks registry (map f es)) = Ok (List.filter (fun d => negb (sel d)) out).
Proof.
  induction es as [|e es IH]; intros out Hf.
  - rewrite run_checks_nil. by intros [= <-].
  - cbn [map]. intros (r & l & Hc & Hr & ->)%run_checks_Ok_cons.
    assert (snd (run_checks registry (map f es))
            = Ok (List.filter (fun d => negb (sel d)) l)) as Htl.
    { apply IH; [|done]. intros e' Hin. apply Hf. by right. }
    apply run_checks_Ok_cons. pose proof (Hf e (or_introl eq_refl)) as He.
    rewrite Hc in He.
    destruct r as [d|].
    + cbn [List.filter]. destruct (sel d); cbn [negb].
      * by exists None, (List.filter (fun d => negb (sel d)) l).
      * by exists (Some d), (List.filter (fun d => negb (sel d)) l).
    + by exists None, (List.filter (fun d => negb (sel d)) l).
Qed.

(** The catalog object after the selected updates, entry by entry. *)
Lemma updated_object_checks fl (o : object) outdated e :
  NoDup (keys o) ->
  snd (run_checks registry o) = Ok outdated ->
  any_filter fl = true ->
  In e o ->
  let o' := fold_left update_object (toUpdate fl outdated) o in
  snd (check_entry registry
         (fst e, match assoc_get (fst e) o' with Some x => x | None => snd e end))
  = match snd (check_entry registry e) with
    | Ok (Some d) => if selected fl d then Ok None else Ok (Some d)
    | r => r
    end.
Proof.
  intros Hnd Hr Hany Hin o'. destruct e as [k v]. cbn [fst snd].
  pose proof (run_checks_names_NoDup registry o outdated Hnd Hr) as Hnames.
  pose proof (assoc_get_NoDup k v o Hnd Hin) as Hget.
  destruct (run_checks_entry registry o outdated (k, v) Hr Hin) as (r & Hc & Hrd).
  rewrite Hc.
  assert (~ In k (map name (toUpdate fl outdated)) ->
          snd (check_entry registry
                 (k, match assoc_get k o' with Some x => x | None => v end)) = Ok r) as Hkeep.
  { intros Hni. subst o'. by rewrite fold_update_object_other, Hget. }
  destruct r as [d|].
  - destruct (check_entry_some registry _ _ _ Hc) as (Hn & Hv & _). subst k v.
    specialize (Hrd d eq_refl).
    destruct (selected fl d) eqn:Hs.
    + assert (In d (toUpdate fl outdated)) as Hin' by (apply toUpdate_In; auto).
      subst o'.
      rewrite (fold_update_object_hit _ d o _ (toUpdate_names_NoDup fl _ Hnames) Hin' Hget
                 (outdated_current_nonempty registry _ _ _ Hc)).
      by apply updated_entry_excluded.
    + apply Hkeep. intros (d' & Hd' & Hin')%in_map_iff.
      apply toUpdate_In in Hin' as [Hin' [?|Hs']]; [congruence|].
      assert (d' = d) as ->; [|congruence].
      destruct (run_checks_In registry o outdated d' Hr Hin') as [Hino' Hc'].
      rewrite Hd' in Hino', Hc'.
      pose proof (assoc_get_NoDup _ _ o Hnd Hino') as Hget'.
      rewrite Hget in Hget'. injection Hget' as Hcur. rewrite <- Hcur in Hc'. congruence.
  - apply Hkeep. intros (d' & Hd' & Hin')%in_map_iff.
    apply toUpdate_In in Hin' as [Hin' _].
    destruct (run_checks_In registry o outdated d' Hr Hin') as [Hino' Hc'].
    rewrite Hd' in Hino', Hc'.
    pose proof (assoc_get_NoDup _ _ o Hnd Hino') as Hget'.
    rewrite Hget in Hget'. injection Hget' as ->. congruence.
Qed.

Lemma second_run_filtered_object fl (o : object) outdated :
  NoDup (keys o) ->
  snd (run_checks registry o) = Ok outdated ->
  any_filter fl = true ->
  snd (run_checks registry (fold_left update_object (toUpdate fl outdated) o))
  = Ok (List.filter (fun d => negb (selected fl d)) outdated).
Proof.
  intros Hnd Hr Hany.
  set (o' := fold_left update_object (toUpdate fl outdated) o).
  rewrite (same_keys_map o' o Hnd) by (subst o'; apply fold_update_object_keys).
  apply run_checks_map; [|done].
  intros e Hin. by apply (updated_object_checks fl o outdated e).
Qed.

End FilteredUpdate.

(** X22.  After a run with [--update] and filters, against the same
    registry, the entries still outdated are exactly those the filters did
    not select, in the same order and as they were reported: every selected
    entry is up to date, and no other entry has changed status. *)
Theorem X22_filtered_update_leaves_the_unselected
  (registry : Registry) (fl : Flags) (h : heap) (doc : jsval) (l : loc)
  (outdated : list OutdatedInfo) :
  unique_keys h ->
  doc_catalog h doc = Ok (FromDoc (JRef l)) ->
  outdated_of registry h doc = Ok outdated ->
  shouldUpdate fl = true ->
  any_filter fl = true ->
  outdated_of registry (final (checkDependencies registry fl h doc)) doc
  = Ok (List.filter (fun d => negb (selected fl d)) outdated).
Proof.
  intros Huk Hc Ho Hu Hany.
  pose proof (outdated_of_catalog registry h doc _ outdated Hc Ho) as Hr.
  cbn [catalog_entries Object_entries] in Hr.
  assert (NoDup (keys (heap_object h l))) as Hnd.
  { unfold heap_object. destruct (h !! l) as [o|] eqn:Hh; [by eapply Huk|constructor]. }
  destruct outdated as [|d0 outdated].
  - destruct (run_spec registry fl h doc) as [[-> _]|(c' & o' & Hc' & Hr' & Hne & _)].
    + by rewrite Ho.
    + rewrite Hc in Hc'. injection Hc' as <-. cbn [catalog_entries Object_entries] in Hr'.
      congruence.
  - destruct (run_updates registry fl h doc l (d0 :: outdated) Hc Ho) as (_ & Hobj & _);
      [done|done|].
    unfold outdated_of. rewrite run_doc_catalog, Hc. cbn [bind catalog_entries Object_entries].
    rewrite Hobj. by apply second_run_filtered_object.
Qed.

(** [--update --minor] on the sample document: [baz] (major) is what the
    next run reports. *)
Lemma X22_witness_minor_only :
  outdated_of sample_registry
    (final (checkDependencies sample_registry update_minor_only sample_heap (JRef 0))) (JRef 0)
  = Ok (List.filter (fun d => negb (selected update_minor_only d))
          [sample_foo; sample_bar; sample_baz]).
Proof.
  apply (X22_filtered_update_leaves_the_unselected sample_registry update_minor_only
           sample_heap (JRef 0) 1 [sample_foo; sample_bar; sample_baz]).
  - exact sample_heap_unique_keys.
  - exact sample_catalog.
  - exact sample_outdated.
  - reflexivity.
  - reflexivity.
Defined.

Example second_run_after_minor_example :
  outdated_of sample_registry
    (final (checkDependencies sample_registry update_minor_only sample_heap (JRef 0))) (JRef 0)
  = Ok [sample_baz].
Proof. by vm_compute. Qed.
